(** * WWBridge: the send queue, the drain loop and the registration handshake

    A shallow embedding of [src/index.js] (class [WWBridge]).  The instance
    fields of the class form the record [Bridge]; everything the class reaches
    through the browser (timers, the hidden iframe, the object exposed as
    [window.mobileBridge], the console) forms the record [World].  Methods are
    functions on [State], a bridge in its world, written in the order of the
    source statements they embed.  Listeners that the application attaches
    with [on] are not run: what they would receive is kept in the history
    [dispatched]. *)

From Stdlib Require Import Ascii HexString.
From stdpp Require Import base strings list pretty gmap.

Open Scope string_scope.
Open Scope list_scope.

(** ** JavaScript data *)

(** Payload values: the acyclic data that [send(name, data)] is documented to
    carry and that [JSON.parse] produces.  Numbers are kept as integers. *)
#[warnings="-register-all"]
Inductive Value :=
| VUndefined
| VNull
| VBool (b : bool)
| VNum (n : Z)
| VStr (s : string)
| VArr (items : list Value)
| VObj (props : list (string * Value)).

(** The built-ins [JSON.parse] and [JSON.stringify] belong to the engine, not
    to the repository; the development is parametric in them.  [JSON_parse]
    answers [None] where the built-in throws a SyntaxError; [JSON_stringify]
    answers [None] where the built-in returns [undefined] (it cannot throw on
    a [Value], which has no cycles). *)
Class JSON := {
  JSON_parse : string -> option Value;
  JSON_stringify : Value -> option string
}.

(** [if (v)] *)
Definition truthy (v : Value) : bool :=
  match v with
  | VUndefined | VNull => false
  | VBool b => b
  | VNum n => negb (n =? 0)%Z
  | VStr s => negb (String.eqb s "")
  | VArr _ | VObj _ => true
  end.

(** Own enumerable properties copied by an object spread [...v], in copy
    order: the properties of an object, the indices of an array, the
    characters of a string, nothing for the other primitives. *)
Definition own_enumerable (v : Value) : list (string * Value) :=
  match v with
  | VObj props => props
  | VArr items => imap (fun i x => (pretty i, x)) items
  | VStr s => imap (fun i c => (pretty i, VStr (String c ""))) (String.list_ascii_of_string s)
  | _ => []
  end.

(** [{ ...target, ...v }]: later copies win. *)
Definition spread (target : gmap string Value) (v : Value) : gmap string Value :=
  foldl (fun m kv => <[kv.1 := kv.2]> m) target (own_enumerable v).

(** ** Plain objects used as dictionaries

    [window.mobileBridge._storage] is an ordinary object literal, so a key
    that is not an own property is looked up on [Object.prototype], and the
    key [__proto__] is an accessor: assigning a primitive to it is ignored. *)
Definition Object_prototype_names : list string :=
  [ "constructor"; "__defineGetter__"; "__defineSetter__"; "hasOwnProperty";
    "__lookupGetter__"; "__lookupSetter__"; "isPrototypeOf";
    "propertyIsEnumerable"; "toString"; "valueOf"; "__proto__";
    "toLocaleString" ].

(** What [obj[key]] evaluates to. *)
Inductive Got :=
| GotUndefined
| GotString (s : string)
| GotInherited (key : string).

Definition of_stored (v : option string) : Got :=
  match v with
  | Some s => GotString s
  | None => GotUndefined
  end.

(** [obj[key]] *)
Definition obj_get (key : string) (obj : gmap string (option string)) : Got :=
  match obj !! key with
  | Some v => of_stored v
  | None =>
      if bool_decide (key ∈ Object_prototype_names) then GotInherited key
      else GotUndefined
  end.

(** [obj[key] = v] for a primitive [v] *)
Definition obj_set (key : string) (v : option string)
    (obj : gmap string (option string)) : gmap string (option string) :=
  if bool_decide (key = "__proto__") then obj else <[key := v]> obj.

(** [delete obj[key]] *)
Definition obj_delete (key : string)
    (obj : gmap string (option string)) : gmap string (option string) :=
  delete key obj.

(** ** Constants of the module *)

Definition PROTOCOL_SCHEMA : string := "ww".
Definition EXPOSED_BRIDGE_NAME : string := "mobileBridge".
Definition STORAGE_KEY : string := "_storage".
Definition REGISTRATION_EVENT_NAME : string := "_register".
Definition BRIDGE_SEND_EVENT : string := "bridgeSend".
Definition BRIDGE_REGISTER_EVENT : string := "bridgeRegister".

(** ** Data model *)

(** An entry of [_sendQueue]: [{ name, data, id }]. *)
Module QueuedEvent.
Record t := make { name : string; data : Value; id : string }.
End QueuedEvent.

(** A [CustomEvent]: its type and its [detail: { name, data }]. *)
Module CustomEvent.
Record t := make { type : string; detail_name : string; detail_data : Value }.
End CustomEvent.

Inductive ConsoleEntry :=
| console_log (msg : string) (arg : Value)
| console_error (msg : string).

(** The instance fields.  [_registerHandler] and [_interval] are kept by
    what the code tests of them: whether the handler reference is set, and
    the timer handle ([None] for [undefined] and [null]; a handle returned
    by [setInterval] is a positive integer, hence truthy).  [_iframe] is
    defined exactly when [window] is, and is represented by [window]. *)
Record Bridge := {
  _sendQueue : list QueuedEvent.t;
  _debug : bool;
  _isBridgeRegistered : bool;
  _isBridgeRegistrationSent : bool;
  _storage : gmap string Value;
  _registerHandler : bool;
  _interval : option positive
}.

(** The environment.  [timers] are the intervals this bridge has started and
    not cleared; [iframe_src] is the history of values assigned to the
    iframe's [src] (oldest first): each one is a signal to the host;
    [iframe_listener] tells whether the registration handler is attached to
    the iframe for [bridgeSend]; [dispatched] is the history of events
    dispatched on the iframe, which is what listeners attached by the
    application observe; [exposed_storage] is
    [window.mobileBridge._storage]; [uncaught] collects the exceptions that
    leave a timer callback. *)
Record World := {
  window : bool;
  timers : list positive;
  timer_seq : positive;
  iframe_src : list string;
  iframe_listener : bool;
  dispatched : list CustomEvent.t;
  exposed_storage : gmap string (option string);
  console : list ConsoleEntry;
  uncaught : list string
}.

Record State := { this : Bridge; env : World }.

(** *** Field updates *)

Definition set_sendQueue (q : list QueuedEvent.t) (b : Bridge) : Bridge :=
  {| _sendQueue := q; _debug := _debug b;
     _isBridgeRegistered := _isBridgeRegistered b;
     _isBridgeRegistrationSent := _isBridgeRegistrationSent b;
     _storage := _storage b; _registerHandler := _registerHandler b;
     _interval := _interval b |}.

Definition set_isBridgeRegistered (v : bool) (b : Bridge) : Bridge :=
  {| _sendQueue := _sendQueue b; _debug := _debug b;
     _isBridgeRegistered := v;
     _isBridgeRegistrationSent := _isBridgeRegistrationSent b;
     _storage := _storage b; _registerHandler := _registerHandler b;
     _interval := _interval b |}.

Definition set_isBridgeRegistrationSent (v : bool) (b : Bridge) : Bridge :=
  {| _sendQueue := _sendQueue b; _debug := _debug b;
     _isBridgeRegistered := _isBridgeRegistered b;
     _isBridgeRegistrationSent := v;
     _storage := _storage b; _registerHandler := _registerHandler b;
     _interval := _interval b |}.

Definition set_storage (m : gmap string Value) (b : Bridge) : Bridge :=
  {| _sendQueue := _sendQueue b; _debug := _debug b;
     _isBridgeRegistered := _isBridgeRegistered b;
     _isBridgeRegistrationSent := _isBridgeRegistrationSent b;
     _storage := m; _registerHandler := _registerHandler b;
     _interval := _interval b |}.

Definition set_registerHandler (v : bool) (b : Bridge) : Bridge :=
  {| _sendQueue := _sendQueue b; _debug := _debug b;
     _isBridgeRegistered := _isBridgeRegistered b;
     _isBridgeRegistrationSent := _isBridgeRegistrationSent b;
     _storage := _storage b; _registerHandler := v;
     _interval := _interval b |}.

Definition set_interval (h : option positive) (b : Bridge) : Bridge :=
  {| _sendQueue := _sendQueue b; _debug := _debug b;
     _isBridgeRegistered := _isBridgeRegistered b;
     _isBridgeRegistrationSent := _isBridgeRegistrationSent b;
     _storage := _storage b; _registerHandler := _registerHandler b;
     _interval := h |}.

Definition set_timers (ts : list positive) (next : positive) (w : World) : World :=
  {| window := window w; timers := ts; timer_seq := next;
     iframe_src := iframe_src w; iframe_listener := iframe_listener w;
     dispatched := dispatched w; exposed_storage := exposed_storage w;
     console := console w; uncaught := uncaught w |}.

Definition set_iframe_src (l : list string) (w : World) : World :=
  {| window := window w; timers := timers w; timer_seq := timer_seq w;
     iframe_src := l; iframe_listener := iframe_listener w;
     dispatched := dispatched w; exposed_storage := exposed_storage w;
     console := console w; uncaught := uncaught w |}.

Definition set_iframe_listener (v : bool) (w : World) : World :=
  {| window := window w; timers := timers w; timer_seq := timer_seq w;
     iframe_src := iframe_src w; iframe_listener := v;
     dispatched := dispatched w; exposed_storage := exposed_storage w;
     console := console w; uncaught := uncaught w |}.

Definition set_dispatched (l : list CustomEvent.t) (w : World) : World :=
  {| window := window w; timers := timers w; timer_seq := timer_seq w;
     iframe_src := iframe_src w; iframe_listener := iframe_listener w;
     dispatched := l; exposed_storage := exposed_storage w;
     console := console w; uncaught := uncaught w |}.

Definition set_exposed_storage (m : gmap string (option string)) (w : World) : World :=
  {| window := window w; timers := timers w; timer_seq := timer_seq w;
     iframe_src := iframe_src w; iframe_listener := iframe_listener w;
     dispatched := dispatched w; exposed_storage := m;
     console := console w; uncaught := uncaught w |}.

Definition set_console (l : list ConsoleEntry) (w : World) : World :=
  {| window := window w; timers := timers w; timer_seq := timer_seq w;
     iframe_src := iframe_src w; iframe_listener := iframe_listener w;
     dispatched := dispatched w; exposed_storage := exposed_storage w;
     console := l; uncaught := uncaught w |}.

Definition set_uncaught (l : list string) (w : World) : World :=
  {| window := window w; timers := timers w; timer_seq := timer_seq w;
     iframe_src := iframe_src w; iframe_listener := iframe_listener w;
     dispatched := dispatched w; exposed_storage := exposed_storage w;
     console := console w; uncaught := l |}.

(** ** Browser primitives *)

(** [setInterval(callback, period)]: a fresh handle, now active. *)
Definition setInterval (w : World) : positive * World :=
  (timer_seq w, set_timers (timers w ++ [timer_seq w]) (Pos.succ (timer_seq w)) w).

(** [clearInterval(handle)]; clearing [null] or [undefined] does nothing. *)
Definition clearInterval (handle : option positive) (w : World) : World :=
  match handle with
  | Some h => set_timers (filter (fun t => t ≠ h) (timers w)) (timer_seq w) w
  | None => w
  end.

(** [iframe.setAttribute('src', addr)] *)
Definition setAttribute_src (addr : string) (w : World) : World :=
  set_iframe_src (iframe_src w ++ [addr]) w.

Definition log_console (entry : ConsoleEntry) (w : World) : World :=
  set_console (console w ++ [entry]) w.

(** An exception that no [try] encloses. *)
Definition throw (error : string) (w : World) : World :=
  set_uncaught (uncaught w ++ [error]) w.

(** [remove(array, { name: REGISTRATION_EVENT_NAME })] of lodash: takes out
    of the array, in place, every element whose [name] is strictly equal to
    the given one, and returns the elements taken out, in order. *)
Definition is_registration (e : QueuedEvent.t) : Prop :=
  QueuedEvent.name e = REGISTRATION_EVENT_NAME.

#[global] Instance is_registration_dec e : Decision (is_registration e).
Proof. unfold is_registration. apply _. Defined.

Definition lodash_remove (array : list QueuedEvent.t)
    : list QueuedEvent.t * list QueuedEvent.t :=
  (filter is_registration array, filter (fun e => ¬ is_registration e) array).

(** ** Identifiers *)

(** One use of [_generateId] calls [Math.random] eight times.  Floating
    point is outside the embedding: the [i]-th draw is given as the integer
    [Math.floor((1 + Math.random()) * 0x10000)] it leads to. *)
Definition Entropy : Type := nat -> N.

(** [n.toString(16)] *)
Definition toString16 (n : N) : string :=
  match n with
  | N0 => "0"
  | Npos p => HexString.Raw.of_pos p ""
  end.

(** [s.substring(1)] *)
Definition substring1 (s : string) : string :=
  match s with
  | String _ rest => rest
  | EmptyString => ""
  end.

Definition s4 (draw : N) : string := substring1 (toString16 draw).

Definition _generateId (rnd : Entropy) : string :=
  s4 (rnd 0) +:+ s4 (rnd 1) +:+ "-" +:+ s4 (rnd 2) +:+ "-" +:+ s4 (rnd 3)
    +:+ "-" +:+ s4 (rnd 4) +:+ "-" +:+ s4 (rnd 5) +:+ s4 (rnd 6) +:+ s4 (rnd 7).

(** ** Transport encoding *)

Definition _wrapSchema (eventName id : string) : string :=
  PROTOCOL_SCHEMA +:+ "://" +:+ eventName +:+ "/" +:+ id.

(** The locator under which a queued event is signalled. *)
Definition locator (e : QueuedEvent.t) : string :=
  _wrapSchema (QueuedEvent.name e) (QueuedEvent.id e).

(** ** Methods of the class *)

Section Methods.
Context `{J : JSON}.

(** [on(name, handler)] and [remove(name, handler)], for the one handler
    the class itself attaches and detaches (the registration handler, on
    [BRIDGE_SEND_EVENT]). *)
Definition on (w : World) : World :=
  if window w then set_iframe_listener true w else w.

Definition remove (w : World) : World :=
  if window w then set_iframe_listener false w else w.

(** [_createEvent(eventType, name, data)]; [data] is [undefined] or a
    string. *)
Definition _createEvent (eventType name : string) (data : option string)
    (w : World) : CustomEvent.t * World :=
  match data with
  | None => (CustomEvent.make eventType name VUndefined, w)
  | Some text =>
      if truthy (VStr text) then
        match JSON_parse text with
        | Some parsed => (CustomEvent.make eventType name parsed, w)
        | None =>
            (CustomEvent.make eventType name (VStr text),
             log_console (console_error "Can't parse json data") w)
        end
      else (CustomEvent.make eventType name (VStr text), w)
  end.

(** [_addData(id, data)] *)
Definition _addData (id : string) (data : Value) (w : World) : World :=
  set_exposed_storage (obj_set id (JSON_stringify data) (exposed_storage w)) w.

(** [window.mobileBridge.pullOutDataById(id)] *)
Definition pullOutDataById (id : string) (w : World) : Got * World :=
  let data := obj_get id (exposed_storage w) in
  (data, set_exposed_storage (obj_delete id (exposed_storage w)) w).

(** *** The drain loop: the callback given to [setInterval] *)

(** Lines 102-113: the choice of the next event. *)
Definition next_event (s : State) : option QueuedEvent.t * State :=
  if _isBridgeRegistered (this s) then
    let s1 :=
      if _registerHandler (this s) then
        {| this := set_registerHandler false (this s); env := remove (env s) |}
      else s in
    (head (_sendQueue (this s1)),
     {| this := set_sendQueue (tail (_sendQueue (this s1))) (this s1);
        env := env s1 |})
  else if negb (_isBridgeRegistrationSent (this s)) then
    let '(removed, kept) := lodash_remove (_sendQueue (this s)) in
    (head removed,
     {| this := set_isBridgeRegistrationSent true (set_sendQueue kept (this s));
        env := env s |})
  else (None, s).

(** Lines 115-126: the event is signalled to the host and its data is
    kept.  Without [window] the iframe is [undefined] and
    [this._iframe.setAttribute] throws. *)
Definition notify_native (evt : QueuedEvent.t) (s : State) : State :=
  let addr := _wrapSchema (QueuedEvent.name evt) (QueuedEvent.id evt) in
  let w1 :=
    if _debug (this s) then
      log_console (console_log ("JS invokes bridge " +:+ addr) (QueuedEvent.data evt)) (env s)
    else env s in
  if window w1 then
    {| this := this s;
       env := _addData (QueuedEvent.id evt) (QueuedEvent.data evt)
                (setAttribute_src addr w1) |}
  else {| this := this s; env := throw "TypeError" w1 |}.

Definition tick (s : State) : State :=
  match _sendQueue (this s) with
  | [] =>
      {| this := set_interval None (this s);
         env := clearInterval (_interval (this s)) (env s) |}
  | _ :: _ =>
      let '(evt, s1) := next_event s in
      match evt with
      | Some e => notify_native e s1
      | None => s1
      end
  end.

(** [_utilizeQueue()]: starts the drain loop unless one is running. *)
Definition _utilizeQueue (s : State) : State :=
  match _interval (this s) with
  | Some _ => s
  | None =>
      let '(handle, w) := setInterval (env s) in
      {| this := set_interval (Some handle) (this s); env := w |}
  end.

(** [send(name, data)] *)
Definition send (name : string) (data : Value) (rnd : Entropy) (s : State) : State :=
  _utilizeQueue
    {| this := set_sendQueue
                 (_sendQueue (this s) ++ [QueuedEvent.make name data (_generateId rnd)])
                 (this s);
       env := env s |}.

(** *** Registration *)

(** [iframe.dispatchEvent(evt)] as listeners of the application see it. *)
Definition emit (evt : CustomEvent.t) (w : World) : World :=
  set_dispatched (dispatched w ++ [evt]) w.

(** The closure stored in [_registerHandler].  Its own [dispatchEvent]
    carries a [BRIDGE_REGISTER_EVENT], for which the class attaches no
    handler, so it reaches the application's listeners only. *)
Definition registerHandler (evt : CustomEvent.t) (s : State) : State :=
  let name := CustomEvent.detail_name evt in
  let data := CustomEvent.detail_data evt in
  if bool_decide (name = REGISTRATION_EVENT_NAME) then
    let b := set_storage (spread (_storage (this s)) (if truthy data then data else VObj []))
               (set_isBridgeRegistered true (this s)) in
    let '(reply, w) :=
      _createEvent BRIDGE_REGISTER_EVENT name (JSON_stringify data) (env s) in
    {| this := b; env := emit reply w |}
  else s.

(** [iframe.dispatchEvent(evt)]: the registration handler runs if it is
    attached and the event is a [BRIDGE_SEND_EVENT]. *)
Definition dispatchEvent (evt : CustomEvent.t) (s : State) : State :=
  let s1 := {| this := this s; env := emit evt (env s) |} in
  if bool_decide (CustomEvent.type evt = BRIDGE_SEND_EVENT) && iframe_listener (env s1)
  then registerHandler evt s1
  else s1.

(** [window.mobileBridge.send(name, data)], the entry point of the host. *)
Definition mobileBridge_send (name : string) (data : option string) (s : State) : State :=
  let '(evt, w) := _createEvent BRIDGE_SEND_EVENT name data (env s) in
  let w1 :=
    if _debug (this s) then
      log_console
        (console_log ("Native invokes bridge with event '" +:+ name +:+ "'")
                     (CustomEvent.detail_data evt)) w
    else w in
  dispatchEvent evt {| this := this s; env := w1 |}.

(** [_exposeBridge()] *)
Definition _exposeBridge (w : World) : World :=
  if window w then set_exposed_storage ∅ w else w.

(** [_registerBridge()] *)
Definition _registerBridge (rnd : Entropy) (s : State) : State :=
  if window (env s) then
    send REGISTRATION_EVENT_NAME VUndefined rnd
      {| this := set_registerHandler true (this s); env := on (env s) |}
  else s.

(** [new WWBridge({ debug })] in the environment [w]. *)
Definition constructor (debug : bool) (rnd : Entropy) (w : World) : State :=
  _registerBridge rnd
    {| this := {| _sendQueue := []; _debug := debug;
                  _isBridgeRegistered := false;
                  _isBridgeRegistrationSent := false;
                  _storage := ∅; _registerHandler := false;
                  _interval := None |};
       env := _exposeBridge w |}.

(** ** Runs *)

(** What can happen to a bridge: the application calls [send], a timer
    fires, the host calls one of the two functions exposed to it. *)
Inductive Op :=
| CallSend (name : string) (data : Value) (rnd : Entropy)
| TimerFires (handle : positive)
| HostSend (name : string) (data : option string)
| HostPull (id : string).

(** A timer fires only while it is active; the host reaches the exposed
    object only where there is a [window]. *)
Definition step (s : State) (op : Op) : State :=
  match op with
  | CallSend name data rnd => send name data rnd s
  | TimerFires handle =>
      if bool_decide (handle ∈ timers (env s)) then tick s else s
  | HostSend name data =>
      if window (env s) then mobileBridge_send name data s else s
  | HostPull id =>
      if window (env s) then
        {| this := this s; env := (pullOutDataById id (env s)).2 |}
      else s
  end.

Definition run (ops : list Op) (s : State) : State := foldl step s ops.

(** The environment before the script runs. *)
Definition page (has_window : bool) (first_timer : positive) : World :=
  {| window := has_window; timers := []; timer_seq := first_timer;
     iframe_src := []; iframe_listener := false; dispatched := [];
     exposed_storage := ∅; console := []; uncaught := [] |}.

Inductive reachable : State -> Prop :=
| reachable_new debug rnd has_window first_timer :
    reachable (constructor debug rnd (page has_window first_timer))
| reachable_step s op :
    reachable s -> reachable (step s op).

(** The events appended to the queue by the calls to [send] of a run. *)
Definition sent_by (op : Op) : list QueuedEvent.t :=
  match op with
  | CallSend name data rnd => [QueuedEvent.make name data (_generateId rnd)]
  | _ => []
  end.

Definition sent_in (ops : list Op) : list QueuedEvent.t :=
  List.concat (map sent_by ops).

(** The position in [Unregistered -> RegistrationSent -> Registered]. *)
Definition registration_rank (b : Bridge) : nat :=
  if _isBridgeRegistered b then 2
  else if _isBridgeRegistrationSent b then 1 else 0.

(** How many [bridgeRegister] notifications a history holds. *)
Definition registered_notifications (w : World) : nat :=
  length (filter (fun e => CustomEvent.type e = BRIDGE_REGISTER_EVENT) (dispatched w)).

End Methods.

(** ** A stand-in for the JSON built-ins, for the examples

    It is exact on what the examples give it: [plain_stringify] on
    [undefined], [null], booleans, integers and arrays of these;
    [plain_parse] on the texts [null], [true], [false], on decimal numerals
    without sign, and on texts that are not JSON, such as ["{"] and the
    empty text, which [JSON.parse] refuses as well.  Other values and other
    JSON texts are outside its range. *)

Definition digits_only (text : string) : bool :=
  negb (String.eqb text "")
  && forallb (fun c => (48 <=? Ascii.nat_of_ascii c)%nat && (Ascii.nat_of_ascii c <=? 57)%nat)
       (String.list_ascii_of_string text).

Definition read_decimal (text : string) : Z :=
  foldl (fun acc c => (10 * acc + Z.of_nat (Ascii.nat_of_ascii c - 48))%Z) 0%Z
    (String.list_ascii_of_string text).

Definition plain_parse (text : string) : option Value :=
  if String.eqb text "null" then Some VNull
  else if String.eqb text "true" then Some (VBool true)
  else if String.eqb text "false" then Some (VBool false)
  else if String.eqb text "0" then Some (VNum 0)
  else if digits_only text && negb (String.prefix "0" text)
  then Some (VNum (read_decimal text))
  else None.

Definition plain_scalar (v : Value) : string :=
  match v with
  | VBool true => "true"
  | VBool false => "false"
  | VNum n => pretty n
  | _ => "null"
  end.

Definition plain_stringify (v : Value) : option string :=
  match v with
  | VUndefined => None
  | VArr items => Some ("[" +:+ String.concat "," (map plain_scalar items) +:+ "]")
  | _ => Some (plain_scalar v)
  end.

Definition plain_JSON : JSON :=
  {| JSON_parse := plain_parse; JSON_stringify := plain_stringify |}.

(** Draws that make every identifier of a run the same, and draws that
    differ from them. *)
Definition draws_a : Entropy := fun _ => 0x1a2b3%N.
Definition draws_b : Entropy := fun i => (0x10000 + N.of_nat i)%N.

(** ** Bridges used in the examples *)

(** [new WWBridge()] in a page, and in an environment without [window]. *)
Definition bridge_in_page : State := constructor false draws_a (page true 1).
Definition bridge_without_window : State := constructor false draws_a (page false 1).

(** In a page, [send('ping', 1)] before the first tick; and then a second
    registration-named event, sent by the application. *)
Definition bridge_with_ping : State := send "ping" (VNum 1) draws_b bridge_in_page.
Definition bridge_with_two_registrations : State :=
  send "_register" VUndefined draws_b bridge_with_ping.

(** Without [window], [send('ping', 1)]. *)
Definition inert_bridge_with_ping : State :=
  send "ping" (VNum 1) draws_b bridge_without_window.

(** The handshake: the first tick signals the registration, the host
    answers once. *)
Definition handshake : list Op := [TimerFires 1; HostSend "_register" None].
Definition registered_bridge : State := run (J := plain_JSON) handshake bridge_in_page.

(** The registration is signalled, the queue runs empty and the timer
    stops; then the host answers twice. *)
Definition replied_twice : State :=
  run (J := plain_JSON)
    [TimerFires 1; TimerFires 1; HostSend "_register" None; HostSend "_register" None]
    bridge_in_page.

(** After the first tick: the queue is empty and the timer still runs. *)
Definition bridge_after_first_tick : State :=
  run (J := plain_JSON) [TimerFires 1] bridge_in_page.

(** Registered, with one ordinary event waiting. *)
Definition registered_bridge_with_ping : State :=
  run (J := plain_JSON) [CallSend "ping" (VNum 1) draws_b] registered_bridge.

(** Two calls to [send] and two ticks. *)
Definition two_sends : list Op :=
  [CallSend "a" (VNum 1) draws_a; CallSend "b" (VNum 2) draws_b;
   TimerFires 1; TimerFires 1].

(** The events of the examples. *)
Definition registration_a : QueuedEvent.t :=
  QueuedEvent.make "_register" VUndefined (_generateId draws_a).
Definition registration_b : QueuedEvent.t :=
  QueuedEvent.make "_register" VUndefined (_generateId draws_b).
Definition ping_b : QueuedEvent.t :=
  QueuedEvent.make "ping" (VNum 1) (_generateId draws_b).

(** ** Invariants of the reachable states *)

(** Generated identifiers hold a dash, which no property name of
    [Object.prototype] does. *)
Definition has_dash (text : string) : Prop :=
  "-"%char ∈ String.list_ascii_of_string text.

#[global] Instance has_dash_dec text : Decision (has_dash text).
Proof. unfold has_dash. apply _. Defined.

(** The active timers are the one in [_interval]; every queued id was
    generated; the registration handler is attached exactly while its
    reference is held, and only in a page; only a page can register a
    bridge; and nothing is signalled before the registration is. *)
Record consistent (s : State) : Prop := {
  timers_held :
    timers (env s) = option_list (_interval (this s));
  ids_generated :
    Forall (fun e => has_dash (QueuedEvent.id e)) (_sendQueue (this s));
  listener_held :
    iframe_listener (env s) = _registerHandler (this s);
  handler_needs_window :
    _registerHandler (this s) = true -> window (env s) = true;
  registered_needs_window :
    _isBridgeRegistered (this s) = true -> window (env s) = true;
  nothing_signalled_before_registration :
    _isBridgeRegistered (this s) = false ->
    _isBridgeRegistrationSent (this s) = false ->
    iframe_src (env s) = []
}.


(** Unfolds the methods down to the record updates. *)
Ltac unfold_bridge :=
  unfold send, _utilizeQueue, tick, next_event, notify_native, lodash_remove,
    mobileBridge_send, dispatchEvent, registerHandler, _createEvent, _addData,
    pullOutDataById, remove, on, setInterval, clearInterval, setAttribute_src,
    log_console, throw, emit in *.

(** ** Shapes of identifiers and of event names *)

(** The digits [toString(16)] writes. *)
Definition hex_digits : list ascii := String.list_ascii_of_string "0123456789abcdef".

Definition is_hex (text : string) : Prop :=
  Forall (fun c => c ∈ hex_digits) (String.list_ascii_of_string text).

(** The draws [Math.floor((1 + Math.random()) * 0x10000)] can give: from
    [0x10000], for a random number of 0, up to [0x20000], which the rounding
    of [1 + Math.random()] reaches. *)
Definition in_draw_range (rnd : Entropy) : Prop :=
  forall i, i < 8 -> (0x10000 <= rnd i <= 0x20000)%N.

(** Four hexadecimal digits. *)
Definition s4_well_formed (draw : N) : bool :=
  bool_decide (String.length (s4 draw) = 4 /\ is_hex (s4 draw)).

(** [f] holds of [count] consecutive numbers from [first]. *)
Fixpoint holds_from (count : nat) (first : N) (f : N -> bool) : bool :=
  match count with
  | O => true
  | S k => f first && holds_from k (N.succ first) f
  end.

(** An event name that can stand in a locator: no path delimiter. *)
Definition no_slash (text : string) : Prop :=
  "/"%char ∉ String.list_ascii_of_string text.

(** ** States of a run

    A bridge that has done nothing the host or the application can see. *)
Record inert (s : State) : Prop := {
  inert_window : window (env s) = false;
  inert_src : iframe_src (env s) = [];
  inert_dispatched : dispatched (env s) = [];
  inert_exposed : exposed_storage (env s) = ∅;
  inert_registered : _isBridgeRegistered (this s) = false;
  inert_listener : iframe_listener (env s) = false;
  inert_handler : _registerHandler (this s) = false;
  inert_storage : _storage (this s) = ∅
}.

(** An operation other than a registration reply of the host. *)
Definition keeps_waiting (op : Op) : Prop :=
  match op with
  | HostSend name _ => name ≠ REGISTRATION_EVENT_NAME
  | _ => True
  end.

(** [get storage()] *)
Definition storage (b : Bridge) : gmap string Value := _storage b.

(** The locator of some registration-named event. *)
Definition registration_locator (addr : string) : Prop :=
  exists id, addr = _wrapSchema REGISTRATION_EVENT_NAME id.

(** Until the bridge is registered, nothing is signalled but, once the flag
    says so, one registration. *)
Definition gated (s : State) : Prop :=
  _isBridgeRegistered (this s) = true
  \/ iframe_src (env s) = []
  \/ (_isBridgeRegistrationSent (this s) = true
      /\ exists addr, registration_locator addr /\ iframe_src (env s) = [addr]).

(** [JSON.parse(JSON.stringify(v))] gives [v] back ([undefined] is the one
    value without a text, and no text is empty). *)
Definition round_trips `{J : JSON} (v : Value) : Prop :=
  match JSON_stringify v with
  | Some text => text ≠ "" /\ JSON_parse text = Some v
  | None => v = VUndefined
  end.

(** The event that the constructor sends, and the states in which it is
    the first to be signalled: in a page, either nothing is signalled yet
    and it heads the queue, or its locator heads the history. *)
Definition registration_of (rnd : Entropy) : QueuedEvent.t :=
  QueuedEvent.make REGISTRATION_EVENT_NAME VUndefined (_generateId rnd).

Definition registration_leads (rnd : Entropy) (s : State) : Prop :=
  window (env s) = true
  /\ ((iframe_src (env s) = []
       /\ exists rest, _sendQueue (this s) = registration_of rnd :: rest)
      \/ exists rest, iframe_src (env s) = locator (registration_of rnd) :: rest).

(** ** Further examples

    A stand-in for the JSON built-ins that also knows one object,
    [{ token: 'abc' }], and its text. *)
Definition double_quote : string := String (ascii_of_nat 34) "".

Definition token_text : string :=
  "{" +:+ double_quote +:+ "token" +:+ double_quote +:+ ":"
      +:+ double_quote +:+ "abc" +:+ double_quote +:+ "}".

Definition token_value : Value := VObj [("token", VStr "abc")].

Definition token_parse (text : string) : option Value :=
  if String.eqb text token_text then Some token_value else plain_parse text.

Definition token_stringify (v : Value) : option string :=
  match v with
  | VObj [(key, VStr text)] =>
      if String.eqb key "token" && String.eqb text "abc" then Some token_text
      else plain_stringify v
  | _ => plain_stringify v
  end.

Definition token_JSON : JSON :=
  {| JSON_parse := token_parse; JSON_stringify := token_stringify |}.

(** Without [window], the application sends a registration-named event. *)
Definition inert_bridge_with_registration : State :=
  send "_register" VUndefined draws_b bridge_without_window.

(** What happens while the bridge waits for the host: two calls to [send],
    a tick, a notification that is not the registration reply. *)
Definition waiting_ops : list Op :=
  [CallSend "a" (VNum 1) draws_a; TimerFires 1;
   CallSend "b" (VNum 2) draws_b; HostSend "pong" None].

(** Registered, with two events waiting. *)
Definition registered_bridge_with_two : State :=
  run (J := plain_JSON)
    [CallSend "a" (VNum 1) draws_a; CallSend "b" (VNum 2) draws_b] registered_bridge.

(** The host answers before the first tick. *)
Definition registered_before_first_tick : State :=
  run (J := plain_JSON) [HostSend "_register" None] bridge_in_page.

(** * Properties *)

(** ** Identifiers and object keys *)

Lemma list_ascii_of_string_app (a b : string) :
  String.list_ascii_of_string (a +:+ b)
  = String.list_ascii_of_string a ++ String.list_ascii_of_string b.
Proof. induction a as [|c a IH]; simpl; [done | by rewrite IH]. Qed.

Lemma has_dash_app_l a b : has_dash a -> has_dash (a +:+ b).
Proof. unfold has_dash. rewrite list_ascii_of_string_app. set_solver. Qed.

Lemma has_dash_app_r a b : has_dash b -> has_dash (a +:+ b).
Proof. unfold has_dash. rewrite list_ascii_of_string_app. set_solver. Qed.

Lemma generateId_has_dash rnd : has_dash (_generateId rnd).
Proof.
  unfold _generateId.
  do 2 apply has_dash_app_r. apply has_dash_app_l.
  unfold has_dash. simpl. set_solver.
Qed.

Lemma prototype_names_no_dash :
  Forall (fun key => ¬ has_dash key) Object_prototype_names.
Proof. by apply (bool_decide_unpack _). Qed.

Lemma has_dash_not_inherited key :
  has_dash key -> key ∉ Object_prototype_names.
Proof.
  intros Hd Hin.
  by apply (proj1 (Forall_forall _ _) prototype_names_no_dash key Hin).
Qed.

Lemma has_dash_not_proto key : has_dash key -> key ≠ "__proto__".
Proof.
  intros Hd ->. apply (has_dash_not_inherited _ Hd).
  by apply (bool_decide_unpack _).
Qed.

Lemma obj_set_lookup key v obj :
  has_dash key -> obj_set key v obj !! key = Some v.
Proof.
  intros Hd. unfold obj_set.
  rewrite bool_decide_eq_false_2 by by apply has_dash_not_proto.
  apply lookup_insert_eq.
Qed.

Lemma obj_get_absent key (obj : gmap string (option string)) :
  has_dash key -> obj !! key = None -> obj_get key obj = GotUndefined.
Proof.
  intros Hd Hnone. unfold obj_get. rewrite Hnone.
  by rewrite bool_decide_eq_false_2 by by apply has_dash_not_inherited.
Qed.

(** ** Lists: what lodash's [remove] leaves and returns *)

Lemma filter_none_registration (l : list QueuedEvent.t) :
  Forall (fun o => ¬ is_registration o) l ->
  filter is_registration l = [] /\ filter (fun o => ¬ is_registration o) l = l.
Proof.
  induction 1 as [|o l Ho _ [IH1 IH2]]; [done |].
  rewrite !filter_cons. destruct (decide (is_registration o)); [done |].
  destruct (decide (¬ is_registration o)); [| done].
  by rewrite IH1, IH2.
Qed.

Lemma lodash_remove_first pre e post :
  is_registration e ->
  Forall (fun o => ¬ is_registration o) pre ->
  lodash_remove (pre ++ e :: post)
  = (e :: filter is_registration post,
     pre ++ filter (fun o => ¬ is_registration o) post).
Proof.
  intros He Hpre. unfold lodash_remove.
  destruct (filter_none_registration pre Hpre) as [H1 H2].
  rewrite !filter_app, !filter_cons, H1, H2.
  destruct (decide (is_registration e)); [| done].
  destruct (decide (¬ is_registration e)); done.
Qed.

Lemma Forall_kept {A} (P Q : A -> Prop) `{!forall x, Decision (Q x)} (l : list A) :
  Forall P l -> Forall P (filter Q l).
Proof.
  rewrite !Forall_forall. intros HP x Hx.
  apply list_elem_of_filter in Hx as [_ Hx]. by apply HP.
Qed.

Section Properties.
Context `{J : JSON}.

Implicit Types (s : State) (e : QueuedEvent.t) (op : Op) (ops : list Op).

(** ** What every operation preserves *)

Lemma send_consistent name data rnd s : consistent s -> consistent (send name data rnd s).
Proof.
  destruct s as [[q dbg reg sent st rh iv] [win ts seq src lis dsp exp con unc]].
  intros [Ht Hi Hl Hh Hr Hn]; simpl in *. unfold send, _utilizeQueue; simpl.
  assert (Forall (fun e => has_dash (QueuedEvent.id e))
            (q ++ [QueuedEvent.make name data (_generateId rnd)])).
  { apply Forall_app. split; [done |].
    apply Forall_singleton. apply generateId_has_dash. }
  destruct iv as [h|]; split; simpl in *; try done.
  by rewrite Ht.
Qed.

Lemma tick_consistent s : consistent s -> consistent (tick s).
Proof.
  destruct s as [[q dbg reg sent st rh iv] [win ts seq src lis dsp exp con unc]].
  intros [Ht Hi Hl Hh Hr Hn]; simpl in *. unfold tick; simpl.
  destruct q as [|e q].
  - destruct iv as [h|]; split; simpl in *; try done.
    rewrite Ht, filter_cons. by destruct (decide (h ≠ h)).
  - apply Forall_cons in Hi as [Hie Hiq].
    unfold next_event, notify_native, lodash_remove; simpl.
    destruct reg; simpl.
    + rewrite (Hr eq_refl) in *.
      destruct rh; simpl; destruct dbg; simpl; split; simpl; done.
    + destruct sent; simpl.
      * split; simpl; try done. by apply Forall_cons.
      * assert (Forall (fun e => has_dash (QueuedEvent.id e))
                  (filter (fun e => ¬ is_registration e) (e :: q))).
        { apply Forall_kept. by apply Forall_cons. }
        destruct (head (filter is_registration (e :: q))) as [r|]; simpl.
        -- destruct dbg, win; simpl; split; simpl; done.
        -- split; simpl; done.
Qed.

Lemma mobileBridge_send_consistent name data s :
  window (env s) = true -> consistent s -> consistent (mobileBridge_send name data s).
Proof.
  destruct s as [[q dbg reg sent st rh iv] [win ts seq src lis dsp exp con unc]].
  intros Hw [Ht Hi Hl Hh Hr Hn]; simpl in *.
  unfold mobileBridge_send, dispatchEvent, registerHandler, _createEvent.
  repeat (case_match; simplify_eq/=); split; simpl; try done.
Qed.

Lemma step_consistent s op : consistent s -> consistent (step s op).
Proof.
  intros Hs. destruct op as [name data rnd|handle|name data|id]; simpl.
  - by apply send_consistent.
  - case_bool_decide; [by apply tick_consistent | done].
  - destruct (window (env s)) eqn:Hw; [by apply mobileBridge_send_consistent | done].
  - destruct (window (env s)); [| done].
    destruct Hs. by split.
Qed.

Lemma new_consistent debug rnd has_window first_timer :
  consistent (constructor debug rnd (page has_window first_timer)).
Proof.
  unfold constructor, _registerBridge, _exposeBridge, page; simpl.
  destruct has_window; simpl; split; simpl; try done.
  apply Forall_singleton. apply generateId_has_dash.
Qed.

Lemma reachable_consistent s : reachable s -> consistent s.
Proof.
  induction 1; [apply new_consistent | by apply step_consistent].
Qed.

Lemma run_reachable ops s : reachable s -> reachable (run ops s).
Proof.
  revert s. induction ops as [|op ops IH]; intros s Hs; [done |].
  apply IH. by constructor.
Qed.

Lemma step_window s op : window (env (step s op)) = window (env s).
Proof.
  destruct s as [[q dbg reg sent st rh iv] [win ts seq src lis dsp exp con unc]].
  destruct op as [name data rnd|handle|name data|id]; simpl;
    unfold_bridge; simpl; repeat (case_match; simplify_eq/=); done.
Qed.

(** ** One tick of the drain loop *)

Lemma tick_nonempty s :
  _sendQueue (this s) ≠ [] ->
  tick s = (let '(evt, s1) := next_event s in
            match evt with
            | Some e => notify_native e s1
            | None => s1
            end).
Proof. unfold tick. by destruct (_sendQueue (this s)). Qed.

(** C9 -- transport encoding: for every event name and correlation id the
    locator is exactly [ww://<eventName>/<correlationId>], and the scheme
    is the constant ["ww"]. *)
Theorem wrapSchema_locator (eventName id : string) :
  _wrapSchema eventName id = "ww://" +:+ eventName +:+ "/" +:+ id
  /\ PROTOCOL_SCHEMA = "ww".
Proof. split; reflexivity. Qed.

(** Before registration, a tick takes the first registration-named event
    out of the queue, with the others, and signals it. *)
Lemma tick_takes_registration s pre e post :
  window (env s) = true ->
  _isBridgeRegistered (this s) = false ->
  _isBridgeRegistrationSent (this s) = false ->
  _sendQueue (this s) = pre ++ e :: post ->
  is_registration e ->
  Forall (fun o => ¬ is_registration o) pre ->
  _sendQueue (this (tick s)) = pre ++ filter (fun o => ¬ is_registration o) post
  /\ iframe_src (env (tick s)) = iframe_src (env s) ++ [locator e]
  /\ exposed_storage (env (tick s))
     = obj_set (QueuedEvent.id e) (JSON_stringify (QueuedEvent.data e))
         (exposed_storage (env s))
  /\ _isBridgeRegistrationSent (this (tick s)) = true.
Proof.
  intros Hw Hreg Hsent Hq He Hpre.
  rewrite tick_nonempty by (rewrite Hq; by destruct pre).
  unfold next_event.
  rewrite Hreg, Hsent, Hq, (lodash_remove_first _ _ _ He Hpre). simpl.
  unfold notify_native; simpl.
  destruct (_debug (this s)); simpl; rewrite Hw; simpl; by split_and!.
Qed.

(** C1 -- registration priority: when the bridge is neither registered nor
    has sent its registration, a tick on a queue that holds a
    registration-named event takes the first such event [e] out of the
    queue wherever it stands (after any ordinary events [pre]), signals
    [e] to the host and keeps its data; no ordinary event is signalled by
    that tick, and in a state a bridge can reach none was signalled
    before. *)
Theorem registration_event_delivered_first s pre e post :
  window (env s) = true ->
  _isBridgeRegistered (this s) = false ->
  _isBridgeRegistrationSent (this s) = false ->
  _sendQueue (this s) = pre ++ e :: post ->
  is_registration e ->
  Forall (fun o => ¬ is_registration o) pre ->
  _sendQueue (this (tick s)) = pre ++ filter (fun o => ¬ is_registration o) post
  /\ iframe_src (env (tick s)) = iframe_src (env s) ++ [locator e]
  /\ exposed_storage (env (tick s))
     = obj_set (QueuedEvent.id e) (JSON_stringify (QueuedEvent.data e))
         (exposed_storage (env s))
  /\ _isBridgeRegistrationSent (this (tick s)) = true
  /\ (reachable s -> iframe_src (env s) = []).
Proof.
  intros Hw Hreg Hsent Hq He Hpre.
  destruct (tick_takes_registration s pre e post) as (? & ? & ? & ?); try done.
  split_and!; try done.
  intros Hr. by apply (reachable_consistent _ Hr).
Qed.

(** C4 -- a tick before registration on a non-empty queue without a
    registration-named event: nothing is signalled, the queue and the
    storage are as before, and the flag [_isBridgeRegistrationSent] is set
    all the same. *)
Theorem registration_flag_set_without_delivery s :
  _isBridgeRegistered (this s) = false ->
  _isBridgeRegistrationSent (this s) = false ->
  _sendQueue (this s) ≠ [] ->
  Forall (fun o => ¬ is_registration o) (_sendQueue (this s)) ->
  _sendQueue (this (tick s)) = _sendQueue (this s)
  /\ env (tick s) = env s
  /\ _isBridgeRegistrationSent (this (tick s)) = true.
Proof.
  intros Hreg Hsent Hq Hnone.
  rewrite tick_nonempty by done.
  unfold next_event, lodash_remove. rewrite Hreg, Hsent.
  destruct (filter_none_registration _ Hnone) as [-> ->]. done.
Qed.

(** ** What a run signals *)

Lemma head_removed_submseteq (q : list QueuedEvent.t) r :
  head (filter is_registration q) = Some r ->
  r :: filter (fun o => ¬ is_registration o) q ⊆+ q.
Proof.
  intros Hr.
  rewrite <- (filter_app_complement is_registration q) at 2.
  destruct (filter is_registration q) as [|r' rest]; simplify_eq/=.
  apply submseteq_skip. by apply submseteq_inserts_l.
Qed.

Lemma kept_submseteq (q : list QueuedEvent.t) :
  filter (fun o => ¬ is_registration o) q ⊆+ q.
Proof. apply sublist_submseteq, sublist_filter. Qed.

Lemma obj_set_key key v obj k :
  is_Some (obj_set key v obj !! k) -> is_Some (obj !! k) \/ k = key.
Proof.
  unfold obj_set. case_bool_decide; [by left |].
  destruct (decide (key = k)) as [ -> | ]; [by right |].
  rewrite lookup_insert_ne by done. by left.
Qed.

(** One tick signals at most one event, which leaves the queue. *)
Lemma tick_signals s :
  exists ds,
    iframe_src (env (tick s)) = iframe_src (env s) ++ map locator ds
    /\ ds ++ _sendQueue (this (tick s)) ⊆+ _sendQueue (this s)
    /\ (forall k, is_Some (exposed_storage (env (tick s)) !! k) ->
          is_Some (exposed_storage (env s) !! k) \/ k ∈ map QueuedEvent.id ds).
Proof.
  destruct s as [[q dbg reg sent st rh iv] [win ts seq src lis dsp exp con unc]].
  unfold tick; simpl. destruct q as [|e q].
  { exists []. destruct iv; simpl; rewrite ?app_nil_r; split_and!; auto. }
  unfold next_event, notify_native, lodash_remove; simpl.
  destruct reg; simpl.
  - destruct win.
    + exists [e].
      destruct rh, dbg; simpl; split_and!; try done;
        intros k Hk; apply obj_set_key in Hk as [ ? | -> ]; auto; right; set_solver.
    + exists [].
      destruct rh, dbg; simpl; rewrite ?app_nil_r; split_and!; auto;
        by apply submseteq_cons.
  - destruct sent; simpl.
    { exists []. simpl. rewrite app_nil_r. split_and!; auto. }
    destruct (head (filter is_registration (e :: q))) as [r|] eqn:Hr; simpl.
    + destruct win.
      * exists [r].
        destruct dbg; simpl; split_and!; try done;
          try (by apply head_removed_submseteq);
          intros k Hk; apply obj_set_key in Hk as [ ? | -> ]; auto; right; set_solver.
      * exists [].
        destruct dbg; simpl; rewrite ?app_nil_r; split_and!; auto;
          apply kept_submseteq.
    + exists []. simpl. rewrite app_nil_r. split_and!; auto.
      apply kept_submseteq.
Qed.

Lemma step_signals s op :
  exists ds,
    iframe_src (env (step s op)) = iframe_src (env s) ++ map locator ds
    /\ ds ++ _sendQueue (this (step s op)) ⊆+ _sendQueue (this s) ++ sent_by op
    /\ (forall k, is_Some (exposed_storage (env (step s op)) !! k) ->
          is_Some (exposed_storage (env s) !! k) \/ k ∈ map QueuedEvent.id ds).
Proof.
  destruct op as [name data rnd|handle|name data|id]; simpl.
  - exists []. unfold send, _utilizeQueue; simpl.
    destruct (_interval (this s)); simpl; rewrite app_nil_r; split_and!; auto.
  - case_bool_decide.
    + destruct (tick_signals s) as (ds & ? & ? & ?).
      exists ds. by rewrite app_nil_r.
    + exists []. simpl. rewrite !app_nil_r. split_and!; auto.
  - exists []. simpl. rewrite !app_nil_r.
    destruct (window (env s)); [| split_and!; auto].
    destruct s as [[q dbg reg sent st rh iv] [win ts seq src lis dsp exp con unc]].
    unfold_bridge; simpl.
    repeat (case_match; simplify_eq/=); split_and!; auto.
  - exists []. simpl. rewrite !app_nil_r.
    destruct (window (env s)); simpl; split_and!; auto.
    intros k Hk. left. unfold obj_delete in Hk.
    destruct (decide (id = k)) as [ -> | ].
    + rewrite lookup_delete_eq in Hk. by destruct Hk.
    + by rewrite lookup_delete_ne in Hk.
Qed.

(** Whatever a run signals was in the queue at its start or was sent
    during it, each event at most once; and every key the storage gains
    is the id of a signalled event. *)
Lemma run_signals ops s :
  exists ds,
    iframe_src (env (run ops s)) = iframe_src (env s) ++ map locator ds
    /\ ds ++ _sendQueue (this (run ops s)) ⊆+ _sendQueue (this s) ++ sent_in ops
    /\ (forall k, is_Some (exposed_storage (env (run ops s)) !! k) ->
          is_Some (exposed_storage (env s) !! k) \/ k ∈ map QueuedEvent.id ds).
Proof.
  revert s. induction ops as [|op ops IH]; intros s.
  { exists []. simpl. rewrite !app_nil_r. split_and!; auto. }
  destruct (step_signals s op) as (d0 & Hsrc0 & Hq0 & Hk0).
  destruct (IH (step s op)) as (d1 & Hsrc1 & Hq1 & Hk1).
  exists (d0 ++ d1). simpl. split_and!.
  - by rewrite Hsrc1, Hsrc0, map_app, app_assoc.
  - unfold sent_in. simpl. fold (sent_in ops).
    rewrite <- app_assoc.
    transitivity (d0 ++ (_sendQueue (this (step s op)) ++ sent_in ops)).
    + by apply submseteq_app.
    + rewrite !app_assoc. by apply submseteq_app.
  - intros k Hk. rewrite map_app.
    destruct (Hk1 k Hk) as [Hs|]; [| right; apply elem_of_app; by right].
    destruct (Hk0 k Hs); [by left | right; apply elem_of_app; by left].
Qed.

(** C10 -- several registration-named events in the queue before
    registration: one tick takes all of them out of the queue and signals
    only the first, [e]; only the data of [e] is written to the storage.
    Whatever is signalled or stored afterwards comes from the ordinary
    events left in the queue or from later calls to [send]: the other
    registration-named events are lost. *)
Theorem duplicate_registration_events_dropped s pre e post :
  window (env s) = true ->
  _isBridgeRegistered (this s) = false ->
  _isBridgeRegistrationSent (this s) = false ->
  _sendQueue (this s) = pre ++ e :: post ->
  is_registration e ->
  Forall (fun o => ¬ is_registration o) pre ->
  Exists is_registration post ->
  _sendQueue (this (tick s)) = filter (fun o => ¬ is_registration o) (_sendQueue (this s))
  /\ Forall (fun o => ¬ is_registration o) (_sendQueue (this (tick s)))
  /\ length (filter is_registration (_sendQueue (this s))) >= 2
  /\ iframe_src (env (tick s)) = iframe_src (env s) ++ [locator e]
  /\ exposed_storage (env (tick s))
     = obj_set (QueuedEvent.id e) (JSON_stringify (QueuedEvent.data e))
         (exposed_storage (env s))
  /\ forall ops, exists ds,
       iframe_src (env (run ops (tick s))) = iframe_src (env (tick s)) ++ map locator ds
       /\ ds ++ _sendQueue (this (run ops (tick s)))
            ⊆+ filter (fun o => ¬ is_registration o) (_sendQueue (this s)) ++ sent_in ops
       /\ (forall k, is_Some (exposed_storage (env (run ops (tick s))) !! k) ->
             is_Some (exposed_storage (env (tick s)) !! k)
             \/ k ∈ map QueuedEvent.id ds).
Proof.
  intros Hw Hreg Hsent Hq He Hpre Hpost.
  destruct (tick_takes_registration s pre e post)
    as (Hq' & Hsrc & Hsto & _); try done.
  destruct (filter_none_registration pre Hpre) as [Hp1 Hp2].
  assert (Hkept : _sendQueue (this (tick s))
                  = filter (fun o => ¬ is_registration o) (_sendQueue (this s))).
  { rewrite Hq', Hq, filter_app, filter_cons, Hp2.
    by destruct (decide (¬ is_registration e)). }
  split_and!; try done.
  - rewrite Hkept. apply Forall_forall. intros o Ho.
    by apply list_elem_of_filter in Ho as [? _].
  - rewrite Hq, filter_app, filter_cons, Hp1.
    destruct (decide (is_registration e)); [| done]. simpl.
    apply Exists_exists in Hpost as (r & Hr & Hreg_r).
    assert (r ∈ filter is_registration post) as Hin
      by by apply list_elem_of_filter.
    destruct (filter is_registration post); [by apply elem_of_nil in Hin |].
    simpl. lia.
  - intros ops. destruct (run_signals ops (tick s)) as (ds & ? & ? & ?).
    exists ds. by rewrite <- Hkept.
Qed.

(** ** After registration *)

Lemma tick_registered s e q :
  window (env s) = true ->
  _isBridgeRegistered (this s) = true ->
  _sendQueue (this s) = e :: q ->
  _sendQueue (this (tick s)) = q
  /\ iframe_src (env (tick s)) = iframe_src (env s) ++ [locator e]
  /\ exposed_storage (env (tick s))
     = obj_set (QueuedEvent.id e) (JSON_stringify (QueuedEvent.data e))
         (exposed_storage (env s))
  /\ iframe_listener (env (tick s))
     = iframe_listener (env s) && negb (_registerHandler (this s)).
Proof.
  destruct s as [[q0 dbg reg sent st rh iv] [win ts seq src lis dsp exp con unc]].
  simpl. intros -> -> ->. unfold_bridge; simpl.
  destruct rh, dbg; simpl; split_and!; try done; by destruct lis.
Qed.

Lemma step_registered s op :
  _isBridgeRegistered (this s) = true ->
  _isBridgeRegistered (this (step s op)) = true.
Proof.
  destruct s as [[q dbg reg sent st rh iv] [win ts seq src lis dsp exp con unc]].
  simpl. intros ->.
  destruct op as [name data rnd|handle|name data|id]; simpl;
    unfold_bridge; simpl; repeat (case_match; simplify_eq/=); done.
Qed.

Lemma step_fifo s op :
  window (env s) = true ->
  _isBridgeRegistered (this s) = true ->
  exists k,
    k <= length (_sendQueue (this s) ++ sent_by op)
    /\ iframe_src (env (step s op))
       = iframe_src (env s) ++ map locator (take k (_sendQueue (this s) ++ sent_by op))
    /\ _sendQueue (this (step s op)) = drop k (_sendQueue (this s) ++ sent_by op).
Proof.
  intros Hw Hreg.
  destruct op as [name data rnd|handle|name data|id]; simpl.
  - exists 0. unfold send, _utilizeQueue; simpl.
    destruct (_interval (this s)); simpl; rewrite app_nil_r; split_and!; auto; lia.
  - rewrite app_nil_r. case_bool_decide.
    + destruct (_sendQueue (this s)) as [|e q] eqn:Hq.
      * exists 0. unfold tick. rewrite Hq. simpl. rewrite app_nil_r.
        split_and!; auto. by destruct (_interval (this s)).
      * destruct (tick_registered s e q Hw Hreg Hq) as (Hq' & Hsrc & _).
        exists 1. simpl. rewrite drop_0. split_and!; auto. lia.
    + exists 0. simpl. rewrite app_nil_r, drop_0. split_and!; auto. lia.
  - exists 0. rewrite Hw, !app_nil_r, drop_0. simpl. rewrite ?app_nil_r.
    destruct s as [[q dbg reg sent st rh iv] [win ts seq src lis dsp exp con unc]].
    unfold_bridge; simpl.
    repeat (case_match; simplify_eq/=); split_and!; auto; lia.
  - exists 0. rewrite Hw, !app_nil_r, drop_0. simpl. rewrite ?app_nil_r.
    split_and!; auto. lia.
Qed.

(** C3 -- FIFO after registration: once the bridge is registered, a tick
    on the queue [e :: q] signals [e] and leaves [q]; and over any run
    (calls to [send], ticks, calls of the host) the events signalled are,
    in order, the first [k] of the queue at the start followed by the
    events sent during the run, the queue holding the others in the same
    order. *)
Theorem fifo_after_registration s ops :
  window (env s) = true ->
  _isBridgeRegistered (this s) = true ->
  (forall e q, _sendQueue (this s) = e :: q ->
     _sendQueue (this (tick s)) = q
     /\ iframe_src (env (tick s)) = iframe_src (env s) ++ [locator e])
  /\ exists k,
       iframe_src (env (run ops s))
       = iframe_src (env s) ++ map locator (take k (_sendQueue (this s) ++ sent_in ops))
       /\ _sendQueue (this (run ops s)) = drop k (_sendQueue (this s) ++ sent_in ops).
Proof.
  intros Hw Hreg. split.
  { intros e q Hq. by destruct (tick_registered s e q Hw Hreg Hq) as (? & ? & _). }
  revert s Hw Hreg. induction ops as [|op ops IH]; intros s Hw Hreg.
  { exists 0. unfold sent_in. simpl. rewrite !app_nil_r. by rewrite drop_0. }
  destruct (step_fifo s op Hw Hreg) as (k0 & Hk0 & Hsrc0 & Hq0).
  destruct (IH (step s op)) as (k1 & Hsrc1 & Hq1).
  { by rewrite step_window. }
  { by apply step_registered. }
  exists (k0 + k1). simpl.
  unfold sent_in; simpl; fold (sent_in ops).
  rewrite Hsrc1, Hq1, Hsrc0, Hq0, app_assoc.
  set (l := _sendQueue (this s) ++ sent_by op) in *. clearbody l.
  split.
  - rewrite <- app_assoc, <- map_app. do 2 f_equal.
    rewrite <- (take_take_drop (l ++ sent_in ops) k0 k1).
    by rewrite (take_app_le l), (drop_app_le l) by done.
  - rewrite <- drop_app_le by done. by rewrite drop_drop.
Qed.

(** ** The registration state *)

Lemma step_registration_sent s op :
  _isBridgeRegistrationSent (this s) = true ->
  _isBridgeRegistrationSent (this (step s op)) = true.
Proof.
  destruct s as [[q dbg reg sent st rh iv] [win ts seq src lis dsp exp con unc]].
  simpl. intros ->.
  destruct op as [name data rnd|handle|name data|id]; simpl;
    unfold_bridge; simpl; repeat (case_match; simplify_eq/=); done.
Qed.

Lemma step_rank s op :
  registration_rank (this s) <= registration_rank (this (step s op)).
Proof.
  unfold registration_rank.
  destruct (_isBridgeRegistered (this s)) eqn:Hreg.
  { by rewrite (step_registered s op Hreg). }
  destruct (_isBridgeRegistrationSent (this s)) eqn:Hsent.
  { rewrite (step_registration_sent s op Hsent). case_match; lia. }
  repeat case_match; lia.
Qed.

(** C5 -- the registration state is monotonic under every operation: over
    any run of calls to [send], ticks and calls of the host, a bridge that
    is registered stays registered, a registration flagged as sent stays
    flagged, and the position in
    [Unregistered -> RegistrationSent -> Registered] never decreases. *)
Theorem registration_state_monotonic s ops :
  (_isBridgeRegistered (this s) = true ->
     _isBridgeRegistered (this (run ops s)) = true)
  /\ (_isBridgeRegistrationSent (this s) = true ->
        _isBridgeRegistrationSent (this (run ops s)) = true)
  /\ registration_rank (this s) <= registration_rank (this (run ops s)).
Proof.
  revert s. induction ops as [|op ops IH]; intros s; [done |].
  destruct (IH (step s op)) as (Hreg & Hsent & Hrank). simpl.
  split_and!.
  - intros H. by apply Hreg, step_registered.
  - intros H. by apply Hsent, step_registration_sent.
  - etrans; [apply (step_rank s op) | done].
Qed.

(** ** The periodic task *)

(** C8 -- at most one periodic task: in every state a bridge can reach
    the active timers are exactly the one held in [_interval], if any;
    [send] while that timer runs starts no other; a tick on an empty queue
    clears the timer and forgets it; and [send] after such a tick starts
    exactly one timer. *)
Theorem single_periodic_task s :
  reachable s ->
  timers (env s) = option_list (_interval (this s))
  /\ length (timers (env s)) <= 1
  /\ (forall name data rnd,
        is_Some (_interval (this s)) ->
        timers (env (send name data rnd s)) = timers (env s))
  /\ (_sendQueue (this s) = [] ->
        timers (env (tick s)) = []
        /\ _interval (this (tick s)) = None
        /\ forall name data rnd,
             timers (env (send name data rnd (tick s))) = [timer_seq (env s)]
             /\ _interval (this (send name data rnd (tick s))) = Some (timer_seq (env s))).
Proof.
  intros Hr. pose proof (reachable_consistent s Hr) as [Ht _ _ _ _ _].
  destruct s as [[q dbg reg sent st rh iv] [win ts seq src lis dsp exp con unc]].
  simpl in *. split_and!.
  - done.
  - rewrite Ht. destruct iv; simpl; lia.
  - intros name data rnd [h ->]. done.
  - intros ->. unfold_bridge; simpl.
    destruct iv as [h|]; simpl in *; subst ts; simpl;
      rewrite ?filter_cons; try destruct (decide (h ≠ h)); done.
Qed.

(** ** Notifications of the host *)



Lemma step_listener_off s op :
  iframe_listener (env s) = false -> iframe_listener (env (step s op)) = false.
Proof.
  destruct s as [[q dbg reg sent st rh iv] [win ts seq src lis dsp exp con unc]].
  simpl. intros ->.
  destruct op as [name data rnd|handle|name data|id]; simpl;
    unfold_bridge; simpl; repeat (case_match; simplify_eq/=); done.
Qed.

(** What one registration-named notification does, by whether the
    registration handler is still attached. *)
Lemma registration_reply s data :
  let s' := mobileBridge_send REGISTRATION_EVENT_NAME data s in
  (iframe_listener (env s) = true ->
     _isBridgeRegistered (this s') = true
     /\ registered_notifications (env s') = S (registered_notifications (env s)))
  /\ (iframe_listener (env s) = false ->
        _isBridgeRegistered (this s') = _isBridgeRegistered (this s)
        /\ registered_notifications (env s') = registered_notifications (env s)).
Proof.
  destruct s as [[q dbg reg sent st rh iv] [win ts seq src lis dsp exp con unc]].
  simpl. split; intros ->;
    unfold mobileBridge_send, dispatchEvent, registerHandler, _createEvent,
      registered_notifications, emit, log_console; simpl;
    repeat (case_match; simplify_eq/=);
    rewrite ?filter_app, ?length_app, ?filter_cons, ?filter_nil;
    repeat (case_decide; simplify_eq/=); split; simpl; try done; lia.
Qed.

Lemma run_listener_off ops s :
  iframe_listener (env s) = false -> iframe_listener (env (run ops s)) = false.
Proof.
  revert s. induction ops as [|op ops IH]; intros s Hoff; [done |].
  simpl. by apply IH, step_listener_off.
Qed.

(** The one operation that detaches the registration handler: a tick of an
    active timer that finds the bridge registered and the queue non-empty. *)
Lemma step_listener_kept s op :
  iframe_listener (env s) = true ->
  iframe_listener (env (step s op)) = false ->
  exists handle,
    op = TimerFires handle
    /\ handle ∈ timers (env s)
    /\ _isBridgeRegistered (this s) = true
    /\ _sendQueue (this s) ≠ [].
Proof.
  destruct s as [[q dbg reg sent st rh iv] [win ts seq src lis dsp exp con unc]].
  simpl. intros ->.
  destruct op as [name data rnd|handle|name data|id]; simpl.
  - unfold send, _utilizeQueue; simpl. by destruct iv.
  - case_bool_decide as Hin; [| done]. unfold tick; simpl.
    destruct q as [|e q]; [by destruct iv |].
    unfold next_event, notify_native, lodash_remove; simpl.
    destruct reg; simpl.
    + intros _. exists handle. by split_and!.
    + repeat (case_match; simplify_eq/=); done.
  - destruct win; [| done].
    unfold mobileBridge_send, dispatchEvent, registerHandler, _createEvent; simpl.
    repeat (case_match; simplify_eq/=); done.
  - by destruct win.
Qed.

Lemma run_listener_kept ops s :
  iframe_listener (env s) = true ->
  iframe_listener (env (run ops s)) = false ->
  exists before handle after,
    ops = before ++ TimerFires handle :: after
    /\ iframe_listener (env (run before s)) = true
    /\ handle ∈ timers (env (run before s))
    /\ _isBridgeRegistered (this (run before s)) = true
    /\ _sendQueue (this (run before s)) ≠ [].
Proof.
  revert s. induction ops as [|op ops IH]; intros s Hon Hoff; [simpl in Hoff; congruence |].
  destruct (iframe_listener (env (step s op))) eqn:Hstep.
  - destruct (IH (step s op) Hstep Hoff)
      as (before & handle & after & -> & Hon' & Hin & Hreg & Hq).
    by exists (op :: before), handle, after.
  - destruct (step_listener_kept s op Hon Hstep) as (handle & -> & Hin & Hreg & Hq).
    by exists [], handle, ops.
Qed.

(** C2, as the code has it -- a registration-named notification that
    arrives while the registration handler is attached sets
    [_isBridgeRegistered] and emits one [bridgeRegister] notification,
    each time it arrives; one that arrives after the handler has been
    detached changes neither.  The handler, which the constructor attaches
    in a page, is detached by the first tick that finds the bridge
    registered and the queue non-empty, and by nothing else: any other
    operation leaves it attached, and a run at whose end it is detached
    holds such a tick, before which it was attached.  It is never attached
    again. *)
Theorem registration_reply_until_detached s data :
  reachable s ->
  (iframe_listener (env s) = true ->
     _isBridgeRegistered
       (this (mobileBridge_send REGISTRATION_EVENT_NAME data s)) = true
     /\ registered_notifications
          (env (mobileBridge_send REGISTRATION_EVENT_NAME data s))
        = S (registered_notifications (env s)))
  /\ (iframe_listener (env s) = false ->
        _isBridgeRegistered
          (this (mobileBridge_send REGISTRATION_EVENT_NAME data s))
        = _isBridgeRegistered (this s)
        /\ registered_notifications
             (env (mobileBridge_send REGISTRATION_EVENT_NAME data s))
           = registered_notifications (env s))
  /\ (_isBridgeRegistered (this s) = true ->
      _sendQueue (this s) ≠ [] ->
      iframe_listener (env (tick s)) = false)
  /\ (iframe_listener (env s) = false ->
      forall ops, iframe_listener (env (run ops s)) = false)
  /\ (iframe_listener (env s) = true ->
      forall op,
        iframe_listener (env (step s op)) = false <->
        exists handle,
          op = TimerFires handle
          /\ handle ∈ timers (env s)
          /\ _isBridgeRegistered (this s) = true
          /\ _sendQueue (this s) ≠ [])
  /\ (iframe_listener (env s) = true ->
      forall ops,
        iframe_listener (env (run ops s)) = false ->
        exists before handle after,
          ops = before ++ TimerFires handle :: after
          /\ iframe_listener (env (run before s)) = true
          /\ handle ∈ timers (env (run before s))
          /\ _isBridgeRegistered (this (run before s)) = true
          /\ _sendQueue (this (run before s)) ≠ [])
  /\ (forall debug rnd first_timer,
        iframe_listener (env (constructor debug rnd (page true first_timer))) = true).
Proof.
  intros Hr. pose proof (registration_reply s data) as [Hon Hoff].
  assert (Hdetach : _isBridgeRegistered (this s) = true ->
                    _sendQueue (this s) ≠ [] ->
                    iframe_listener (env (tick s)) = false).
  { intros Hreg Hq.
    pose proof (reachable_consistent s Hr) as [_ _ Hl _ Hw _].
    destruct (_sendQueue (this s)) as [|e q] eqn:Hqs; [done |].
    destruct (tick_registered s e q (Hw Hreg) Hreg Hqs) as (_ & _ & _ & ->).
    rewrite Hl. by destruct (_registerHandler (this s)). }
  split_and!; try done.
  - intros Hl ops. by apply run_listener_off.
  - intros Hl op. split; [by apply step_listener_kept |].
    intros (handle & -> & Hin & Hreg & Hq). simpl.
    rewrite bool_decide_eq_true_2 by done. by apply Hdetach.
  - intros Hl ops. by apply run_listener_kept.
Qed.

(** ** Retrieval by the host *)

Lemma next_event_queued s e :
  _sendQueue (this s) ≠ [] -> (next_event s).1 = Some e -> e ∈ _sendQueue (this s).
Proof.
  destruct s as [[q dbg reg sent st rh iv] [win ts seq src lis dsp exp con unc]].
  unfold next_event, lodash_remove; simpl. intros Hq.
  destruct reg; simpl.
  - destruct rh; simpl; destruct q; simpl; intros; simplify_eq; set_solver.
  - destruct sent; simpl; [done |].
    intros He. apply head_Some_elem_of in He.
    by apply list_elem_of_filter in He as [_ ?].
Qed.

Lemma tick_stores s e :
  window (env s) = true ->
  _sendQueue (this s) ≠ [] ->
  (next_event s).1 = Some e ->
  exposed_storage (env (tick s))
  = obj_set (QueuedEvent.id e) (JSON_stringify (QueuedEvent.data e))
      (exposed_storage (env s))
  /\ uncaught (env (tick s)) = uncaught (env s).
Proof.
  intros Hw Hq. rewrite tick_nonempty by done.
  destruct s as [[q dbg reg sent st rh iv] [win ts seq src lis dsp exp con unc]].
  simpl in *. subst win.
  unfold next_event, notify_native, lodash_remove; simpl.
  destruct reg; simpl.
  - destruct rh; simpl; intros ->; destruct dbg; done.
  - destruct sent; simpl; [done |]. intros ->. destruct dbg; done.
Qed.

(** C6 -- at-most-once retrieval: the tick that signals the event [e]
    stores its serialized data under its id; and as long as that entry is
    there, the first [pullOutDataById] of the id answers what is stored and
    deletes the entry, and a second one answers [undefined], changes
    nothing and raises nothing. *)
Theorem pullOutDataById_at_most_once s e :
  reachable s ->
  window (env s) = true ->
  _sendQueue (this s) ≠ [] ->
  (next_event s).1 = Some e ->
  exposed_storage (env (tick s)) !! QueuedEvent.id e
  = Some (JSON_stringify (QueuedEvent.data e))
  /\ forall w v,
       exposed_storage w !! QueuedEvent.id e = Some v ->
       (pullOutDataById (QueuedEvent.id e) w).1 = of_stored v
       /\ exposed_storage (pullOutDataById (QueuedEvent.id e) w).2
            !! QueuedEvent.id e = None
       /\ pullOutDataById (QueuedEvent.id e) (pullOutDataById (QueuedEvent.id e) w).2
          = (GotUndefined, (pullOutDataById (QueuedEvent.id e) w).2)
       /\ uncaught (pullOutDataById (QueuedEvent.id e) w).2 = uncaught w.
Proof.
  intros Hr Hw Hq He.
  assert (Hd : has_dash (QueuedEvent.id e)).
  { pose proof (reachable_consistent s Hr) as [_ Hids _ _ _ _].
    apply (proj1 (Forall_forall _ _) Hids). by apply next_event_queued. }
  destruct (tick_stores s e Hw Hq He) as [Hsto _].
  split; [rewrite Hsto; by apply obj_set_lookup |].
  intros w v Hv. unfold pullOutDataById, obj_delete; simpl.
  split_and!.
  - unfold obj_get. by rewrite Hv.
  - apply lookup_delete_eq.
  - rewrite obj_get_absent by (done || apply lookup_delete_eq).
    f_equal. rewrite (delete_id (delete _ _)) by apply lookup_delete_eq.
    by destruct w.
  - done.
Qed.

(** ** Malformed data from the host *)

(** C7, as the code has it -- a notification whose data is a text that
    does not parse: the event is built, and dispatched, with the raw text
    in its [data] field; when the text is not empty [_createEvent] reports
    the fixed message with [console.error], and when it is empty no parse
    is attempted and nothing is reported; nothing is thrown. *)
Theorem malformed_data_kept_as_text s name text :
  window (env s) = true ->
  JSON_parse text = None ->
  (_createEvent BRIDGE_SEND_EVENT name (Some text) (env s)).1
  = CustomEvent.make BRIDGE_SEND_EVENT name (VStr text)
  /\ (text ≠ "" ->
      (_createEvent BRIDGE_SEND_EVENT name (Some text) (env s)).2
      = log_console (console_error "Can't parse json data") (env s))
  /\ (text = "" ->
      (_createEvent BRIDGE_SEND_EVENT name (Some text) (env s)).2 = env s)
  /\ CustomEvent.make BRIDGE_SEND_EVENT name (VStr text)
       ∈ dispatched (env (step s (HostSend name (Some text))))
  /\ (text ≠ "" ->
      console_error "Can't parse json data"
        ∈ console (env (step s (HostSend name (Some text)))))
  /\ uncaught (env (step s (HostSend name (Some text)))) = uncaught (env s).
Proof.
  intros Hw Hparse.
  assert (Htruthy : truthy (VStr text) = negb (String.eqb text "")) by done.
  destruct s as [[q dbg reg sent st rh iv] [win ts seq src lis dsp exp con unc]].
  simpl in Hw. subst win. simpl.
  unfold mobileBridge_send, dispatchEvent, registerHandler, _createEvent, emit,
    log_console; simpl.
  rewrite Hparse.
  destruct (String.eqb_spec text "") as [-> | Hne]; simpl;
    repeat (case_match; simplify_eq/=); split_and!; try done; set_solver.
Qed.

End Properties.

(** * The properties on concrete bridges *)

Section Examples.
#[local] Existing Instance plain_JSON.

(** C1 on a bridge built in a page, with [send('ping', 1)] before the first
    tick. *)
Lemma registration_event_delivered_first_witness :
  (window (env bridge_with_ping) = true
   /\ _isBridgeRegistered (this bridge_with_ping) = false
   /\ _isBridgeRegistrationSent (this bridge_with_ping) = false
   /\ _sendQueue (this bridge_with_ping) = [] ++ registration_a :: [ping_b]
   /\ is_registration registration_a)
  /\ _sendQueue (this (tick bridge_with_ping)) = [ping_b]
  /\ iframe_src (env (tick bridge_with_ping))
     = iframe_src (env bridge_with_ping) ++ [locator registration_a].
Proof.
  split; [by split_and! |].
  pose proof (registration_event_delivered_first bridge_with_ping
                [] registration_a [ping_b]
                eq_refl eq_refl eq_refl eq_refl eq_refl (Forall_nil_2 _))
    as (Hq & Hsrc & _).
  split; [exact Hq | exact Hsrc].
Defined.

(** C10 when the application has sent a second registration-named event
    before the first tick. *)
Lemma duplicate_registration_events_dropped_witness :
  (window (env bridge_with_two_registrations) = true
   /\ _isBridgeRegistered (this bridge_with_two_registrations) = false
   /\ _isBridgeRegistrationSent (this bridge_with_two_registrations) = false
   /\ _sendQueue (this bridge_with_two_registrations)
      = [] ++ registration_a :: [ping_b; registration_b])
  /\ _sendQueue (this (tick bridge_with_two_registrations)) = [ping_b]
  /\ iframe_src (env (tick bridge_with_two_registrations)) = [locator registration_a]
  /\ forall ops, exists ds,
       iframe_src (env (run ops (tick bridge_with_two_registrations)))
       = [locator registration_a] ++ map locator ds
       /\ ds ++ _sendQueue (this (run ops (tick bridge_with_two_registrations)))
            ⊆+ [ping_b] ++ sent_in ops.
Proof.
  split; [by split_and! |].
  pose proof (duplicate_registration_events_dropped bridge_with_two_registrations
                [] registration_a [ping_b; registration_b]
                eq_refl eq_refl eq_refl eq_refl eq_refl (Forall_nil_2 _)
                (Exists_cons_tl _ (Exists_cons_hd _ registration_b [] eq_refl)))
    as (Hq & _ & _ & Hsrc & _ & Hlater).
  split; [exact Hq |]. split; [exact Hsrc |].
  intros ops. destruct (Hlater ops) as (ds & Hs & Hm & _).
  exists ds. split; [exact Hs | exact Hm].
Defined.

(** C3 on a registered bridge, over two calls to [send] and two ticks. *)
Lemma fifo_after_registration_witness :
  (window (env registered_bridge) = true
   /\ _isBridgeRegistered (this registered_bridge) = true)
  /\ exists k,
       iframe_src (env (run two_sends registered_bridge))
       = iframe_src (env registered_bridge)
         ++ map locator (take k (_sendQueue (this registered_bridge) ++ sent_in two_sends))
       /\ _sendQueue (this (run two_sends registered_bridge))
          = drop k (_sendQueue (this registered_bridge) ++ sent_in two_sends).
Proof.
  split; [by split |].
  exact (proj2 (fifo_after_registration registered_bridge two_sends eq_refl eq_refl)).
Defined.

(** The scenario of the handshake followed by two sends: the registration
    is signalled first, then the two events in the order of the calls. *)
Example handshake_then_two_sends :
  iframe_src (env (run two_sends registered_bridge))
  = [ "ww://_register/a2b3a2b3-a2b3-a2b3-a2b3-a2b3a2b3a2b3";
      "ww://a/a2b3a2b3-a2b3-a2b3-a2b3-a2b3a2b3a2b3";
      "ww://b/00000001-0002-0003-0004-000500060007" ]
  /\ _sendQueue (this (run two_sends registered_bridge)) = []
  /\ _isBridgeRegistered (this registered_bridge) = true
  /\ iframe_listener (env (run two_sends registered_bridge)) = false.
Proof. by split_and!. Qed.

(** C5 on a registered bridge, over the same run. *)
Lemma registration_state_monotonic_witness :
  (_isBridgeRegistered (this registered_bridge) = true
   /\ _isBridgeRegistrationSent (this registered_bridge) = true)
  /\ _isBridgeRegistered (this (run two_sends registered_bridge)) = true
  /\ _isBridgeRegistrationSent (this (run two_sends registered_bridge)) = true
  /\ registration_rank (this registered_bridge)
     <= registration_rank (this (run two_sends registered_bridge)).
Proof.
  split; [by split |].
  destruct (registration_state_monotonic registered_bridge two_sends)
    as (Hreg & Hsent & Hrank).
  split; [exact (Hreg eq_refl) |]. split; [exact (Hsent eq_refl) | exact Hrank].
Defined.

Lemma bridge_after_first_tick_reachable : reachable bridge_after_first_tick.
Proof. apply run_reachable, reachable_new. Qed.

(** C8 on a bridge whose queue the first tick has emptied. *)
Lemma single_periodic_task_witness :
  reachable bridge_after_first_tick
  /\ timers (env bridge_after_first_tick) = [1%positive]
  /\ timers (env (send "a" (VNum 1) draws_a bridge_after_first_tick)) = [1%positive]
  /\ timers (env (tick bridge_after_first_tick)) = []
  /\ _interval (this (tick bridge_after_first_tick)) = None
  /\ timers (env (send "a" (VNum 1) draws_a (tick bridge_after_first_tick)))
     = [2%positive].
Proof.
  split; [exact bridge_after_first_tick_reachable |].
  destruct (single_periodic_task bridge_after_first_tick
              bridge_after_first_tick_reachable)
    as (Hheld & _ & Hidem & Hstop).
  split; [exact Hheld |].
  split; [exact (Hidem "a" (VNum 1) draws_a (ex_intro _ 1%positive eq_refl)) |].
  destruct (Hstop eq_refl) as (Hnone & Hforget & Hagain).
  split; [exact Hnone |]. split; [exact Hforget |].
  exact (proj1 (Hagain "a" (VNum 1) draws_a)).
Defined.

Lemma registered_bridge_with_ping_reachable : reachable registered_bridge_with_ping.
Proof. do 2 apply run_reachable. apply reachable_new. Qed.

(** C6 for the event [ping_b], whose data [1] is stored as the text [1]. *)
Lemma pullOutDataById_at_most_once_witness :
  (reachable registered_bridge_with_ping
   /\ window (env registered_bridge_with_ping) = true
   /\ _sendQueue (this registered_bridge_with_ping) = [ping_b]
   /\ (next_event registered_bridge_with_ping).1 = Some ping_b)
  /\ (pullOutDataById (QueuedEvent.id ping_b) (env (tick registered_bridge_with_ping))).1
     = GotString "1"
  /\ pullOutDataById (QueuedEvent.id ping_b)
       (pullOutDataById (QueuedEvent.id ping_b) (env (tick registered_bridge_with_ping))).2
     = (GotUndefined,
        (pullOutDataById (QueuedEvent.id ping_b) (env (tick registered_bridge_with_ping))).2).
Proof.
  split; [split_and!; [exact registered_bridge_with_ping_reachable | done..] |].
  assert (Hq : _sendQueue (this registered_bridge_with_ping) ≠ []) by discriminate.
  destruct (pullOutDataById_at_most_once registered_bridge_with_ping ping_b
              registered_bridge_with_ping_reachable eq_refl Hq eq_refl)
    as (Hstored & Hpull).
  destruct (Hpull (env (tick registered_bridge_with_ping)) _ Hstored)
    as (Hfirst & _ & Hsecond & _).
  split; [exact Hfirst | exact Hsecond].
Defined.

Lemma inert_bridge_with_ping_reachable : reachable inert_bridge_with_ping.
Proof.
  apply (reachable_step _ (CallSend "ping" (VNum 1) draws_b)), reachable_new.
Qed.

(** C4 on a bridge built where there is no [window]: after
    [send('ping', 1)] the first tick signals nothing and sets the flag. *)
Lemma registration_flag_set_without_delivery_witness :
  (reachable inert_bridge_with_ping
   /\ _isBridgeRegistered (this inert_bridge_with_ping) = false
   /\ _isBridgeRegistrationSent (this inert_bridge_with_ping) = false
   /\ _sendQueue (this inert_bridge_with_ping) = [ping_b])
  /\ _sendQueue (this (tick inert_bridge_with_ping)) = [ping_b]
  /\ env (tick inert_bridge_with_ping) = env inert_bridge_with_ping
  /\ iframe_src (env (tick inert_bridge_with_ping)) = []
  /\ _isBridgeRegistrationSent (this (tick inert_bridge_with_ping)) = true.
Proof.
  split; [split_and!; [exact inert_bridge_with_ping_reachable | done..] |].
  assert (Hq : _sendQueue (this inert_bridge_with_ping) ≠ []) by discriminate.
  assert (Hnone : Forall (fun o => ¬ is_registration o)
                    (_sendQueue (this inert_bridge_with_ping))).
  { apply Forall_singleton. discriminate. }
  destruct (registration_flag_set_without_delivery inert_bridge_with_ping
              eq_refl eq_refl Hq Hnone) as (Hsame & Henv & Hflag).
  split; [exact Hsame |]. split; [exact Henv |].
  split; [by rewrite Henv | exact Hflag].
Defined.

Lemma bridge_in_page_reachable : reachable bridge_in_page.
Proof. apply reachable_new. Qed.

(** C2, as the code has it, on a bridge built in a page: the first reply. *)
Lemma registration_reply_until_detached_witness :
  (reachable bridge_in_page /\ iframe_listener (env bridge_in_page) = true)
  /\ _isBridgeRegistered
       (this (mobileBridge_send REGISTRATION_EVENT_NAME None bridge_in_page)) = true
  /\ registered_notifications
       (env (mobileBridge_send REGISTRATION_EVENT_NAME None bridge_in_page)) = 1.
Proof.
  split; [split; [exact bridge_in_page_reachable | done] |].
  destruct (registration_reply_until_detached bridge_in_page None
              bridge_in_page_reachable) as (Hon & _).
  exact (Hon eq_refl).
Defined.

(** C2 as stated fails: the host answers the registration twice while the
    queue is empty (the drain loop has stopped, so no tick detaches the
    handler), and two [bridgeRegister] notifications are emitted. *)
Lemma registration_replied_twice_notified_twice :
  replied_twice
  = run [TimerFires 1; TimerFires 1;
         HostSend REGISTRATION_EVENT_NAME None;
         HostSend REGISTRATION_EVENT_NAME None] bridge_in_page
  /\ registered_notifications (env replied_twice) = 2
  /\ registered_notifications (env replied_twice) <> 1.
Proof. split; [| split]; [reflexivity | reflexivity | discriminate]. Qed.

(** C7, as the code has it, for the text [{] sent by the host. *)
Lemma malformed_data_kept_as_text_witness :
  (window (env bridge_in_page) = true /\ JSON_parse "{" = None)
  /\ CustomEvent.make BRIDGE_SEND_EVENT "ping" (VStr "{")
       ∈ dispatched (env (step bridge_in_page (HostSend "ping" (Some "{"))))
  /\ console_error "Can't parse json data"
       ∈ console (env (step bridge_in_page (HostSend "ping" (Some "{"))))
  /\ uncaught (env (step bridge_in_page (HostSend "ping" (Some "{"))))
     = uncaught (env bridge_in_page).
Proof.
  assert (Htext : "{" ≠ "") by discriminate.
  assert (Hparse : JSON_parse "{" = None) by reflexivity.
  split; [by split |].
  destruct (malformed_data_kept_as_text bridge_in_page "ping" "{" eq_refl Hparse)
    as (_ & _ & _ & Hevt & Herr & Hunc).
  split; [exact Hevt |]. split; [exact (Herr Htext) | exact Hunc].
Defined.

(** C7 as stated fails: the text ["{"] does not parse, and the event that
    reaches the listeners carries that text in its [data] field, which is
    neither [undefined] nor [null]; and for the empty text, which does not
    parse either, no parse is attempted and no error is reported. *)
Lemma malformed_data_field_not_absent :
  (JSON_parse "{" = None
   /\ dispatched (env (step bridge_in_page (HostSend "ping" (Some "{"))))
      = [CustomEvent.make BRIDGE_SEND_EVENT "ping" (VStr "{")]
   /\ VStr "{" <> VUndefined
   /\ VStr "{" <> VNull)
  /\ (JSON_parse "" = None
      /\ dispatched (env (step bridge_in_page (HostSend "ping" (Some ""))))
         = [CustomEvent.make BRIDGE_SEND_EVENT "ping" (VStr "")]
      /\ console (env (step bridge_in_page (HostSend "ping" (Some "")))) = []).
Proof.
  split; split_and!; try reflexivity; discriminate.
Qed.

End Examples.

(** * Further properties *)

(** ** Strings *)

Lemma holds_from_spec count first f m :
  holds_from count first f = true ->
  (first <= m < first + N.of_nat count)%N -> f m = true.
Proof.
  revert first. induction count as [|k IH]; intros first Hall Hm; [lia |].
  simpl in Hall. apply andb_true_iff in Hall as [Hf Hrest].
  destruct (decide (m = first)) as [-> | Hne]; [done |].
  apply (IH (N.succ first)); [done | lia].
Qed.

Lemma s4_well_formed_in_range :
  holds_from (N.to_nat 0x10001) 0x10000 s4_well_formed = true.
Proof. vm_compute. reflexivity. Qed.

Lemma s4_shape draw :
  (0x10000 <= draw <= 0x20000)%N -> String.length (s4 draw) = 4 /\ is_hex (s4 draw).
Proof.
  intros Hr.
  assert (Hok : s4_well_formed draw = true).
  { apply (holds_from_spec _ _ _ draw s4_well_formed_in_range). lia. }
  by apply bool_decide_eq_true in Hok.
Qed.

Lemma app_cons (x : ascii) (a b : string) : String x a +:+ b = String x (a +:+ b).
Proof. reflexivity. Qed.

Lemma string_app_assoc (a b c : string) : (a +:+ b) +:+ c = a +:+ b +:+ c.
Proof. induction a as [|x a IH]; [done |]. by rewrite !app_cons, IH. Qed.

Lemma string_length_app (a b : string) :
  String.length (a +:+ b) = String.length a + String.length b.
Proof. induction a as [|x a IH]; [done |]. rewrite app_cons. simpl. by rewrite IH. Qed.

Lemma is_hex_app (a b : string) : is_hex a -> is_hex b -> is_hex (a +:+ b).
Proof.
  unfold is_hex. rewrite list_ascii_of_string_app. intros. by apply Forall_app.
Qed.

(** X1 -- the shape of identifiers: with draws in range, [_generateId] gives 36
    characters, five groups of 8, 4, 4, 4 and 12 lowercase hexadecimal
    digits separated by dashes. *)
Theorem generateId_shape rnd :
  in_draw_range rnd ->
  exists a b c d e,
    _generateId rnd = a +:+ "-" +:+ b +:+ "-" +:+ c +:+ "-" +:+ d +:+ "-" +:+ e
    /\ String.length a = 8 /\ String.length b = 4 /\ String.length c = 4
    /\ String.length d = 4 /\ String.length e = 12
    /\ is_hex a /\ is_hex b /\ is_hex c /\ is_hex d /\ is_hex e
    /\ String.length (_generateId rnd) = 36.
Proof.
  intros Hr.
  destruct (s4_shape (rnd 0)) as [L0 H0]; [apply Hr; lia |].
  destruct (s4_shape (rnd 1)) as [L1 H1]; [apply Hr; lia |].
  destruct (s4_shape (rnd 2)) as [L2 H2]; [apply Hr; lia |].
  destruct (s4_shape (rnd 3)) as [L3 H3]; [apply Hr; lia |].
  destruct (s4_shape (rnd 4)) as [L4 H4]; [apply Hr; lia |].
  destruct (s4_shape (rnd 5)) as [L5 H5]; [apply Hr; lia |].
  destruct (s4_shape (rnd 6)) as [L6 H6]; [apply Hr; lia |].
  destruct (s4_shape (rnd 7)) as [L7 H7]; [apply Hr; lia |].
  exists (s4 (rnd 0) +:+ s4 (rnd 1)), (s4 (rnd 2)), (s4 (rnd 3)), (s4 (rnd 4)),
    (s4 (rnd 5) +:+ s4 (rnd 6) +:+ s4 (rnd 7)).
  unfold _generateId. split_and!; try done.
  - by rewrite !string_app_assoc.
  - rewrite string_length_app. lia.
  - rewrite !string_length_app. lia.
  - by apply is_hex_app.
  - by repeat apply is_hex_app.
  - rewrite !string_length_app. simpl. lia.
Qed.

Lemma segment_inj n n' i i' :
  no_slash n -> no_slash n' ->
  n +:+ "/" +:+ i = n' +:+ "/" +:+ i' -> n = n' /\ i = i'.
Proof.
  unfold no_slash. revert n'.
  induction n as [|x n IH]; intros [|x' n']; simpl; intros Hn Hn' Heq;
    unfold String.append in Heq; fold String.append in Heq.
  - by simplify_eq.
  - simplify_eq. by apply not_elem_of_cons in Hn' as [? _].
  - simplify_eq. by apply not_elem_of_cons in Hn as [? _].
  - injection Heq as -> Heq.
    apply not_elem_of_cons in Hn as [_ Hn].
    apply not_elem_of_cons in Hn' as [_ Hn'].
    by destruct (IH n' Hn Hn' Heq) as [-> ->].
Qed.

(** X2 -- locators can be decoded: when event names hold no slash, two events
    with the same locator have the same name and the same id. *)
Theorem wrapSchema_decodable n i n' i' :
  no_slash n -> no_slash n' ->
  _wrapSchema n i = _wrapSchema n' i' -> n = n' /\ i = i'.
Proof.
  intros Hn Hn' Heq. apply segment_inj; [done | done |].
  unfold _wrapSchema, PROTOCOL_SCHEMA in Heq.
  unfold String.append in Heq; fold String.append in Heq. by simplify_eq.
Qed.

Section Further.
Context `{J : JSON}.

(** X3 -- storing then retrieving: [pullOutDataById] after [_addData] under a
    generated id answers the serialized data and deletes the entry; when
    the id was free the storage is back to what it was. *)
Theorem addData_then_pullOut rnd data w :
  pullOutDataById (_generateId rnd) (_addData (_generateId rnd) data w)
  = (of_stored (JSON_stringify data),
     set_exposed_storage (obj_delete (_generateId rnd) (exposed_storage w)) w)
  /\ (exposed_storage w !! _generateId rnd = None ->
      pullOutDataById (_generateId rnd) (_addData (_generateId rnd) data w)
      = (of_stored (JSON_stringify data), w)).
Proof.
  pose proof (generateId_has_dash rnd) as Hd.
  assert (Hpull : pullOutDataById (_generateId rnd) (_addData (_generateId rnd) data w)
    = (of_stored (JSON_stringify data),
       set_exposed_storage (obj_delete (_generateId rnd) (exposed_storage w)) w)).
  { unfold pullOutDataById, _addData, obj_get, obj_delete; simpl.
    rewrite obj_set_lookup by done. f_equal.
    unfold obj_set. rewrite bool_decide_eq_false_2 by by apply has_dash_not_proto.
    rewrite delete_insert_eq. by destruct w. }
  split; [done |].
  intros Hfresh. rewrite Hpull. f_equal.
  unfold obj_delete. rewrite delete_id by done. by destruct w.
Qed.

(** X4 -- retrieving what is not there: [pullOutDataById] of an id without
    entry leaves the storage as it is and answers [undefined], except for
    the property names of [Object.prototype], for which the plain object
    answers the inherited member. *)
Theorem pullOutDataById_missing id w :
  exposed_storage w !! id = None ->
  pullOutDataById id w
  = (if bool_decide (id ∈ Object_prototype_names) then GotInherited id else GotUndefined, w).
Proof.
  intros Hnone. unfold pullOutDataById, obj_get, obj_delete. rewrite Hnone.
  f_equal. rewrite delete_id by done. by destruct w.
Qed.


Lemma step_inert s op : inert s -> inert (step s op).
Proof.
  destruct s as [[q dbg reg sent st rh iv] [win ts seq src lis dsp exp con unc]].
  intros [Hw Hsrc Hd He Hr Hl Hh Hs]; simpl in *; subst.
  destruct op as [name data rnd|handle|name data|id]; simpl;
    unfold_bridge; simpl; repeat (case_match; simplify_eq/=); by split.
Qed.

(** X5 -- without [window] the bridge is inert: the constructor enqueues
    nothing and starts no timer, and over any run nothing is signalled,
    dispatched or stored, no handler is attached and the bridge never
    becomes registered. *)
Theorem without_window_inert debug rnd first_timer ops :
  inert (run ops (constructor debug rnd (page false first_timer)))
  /\ _sendQueue (this (constructor debug rnd (page false first_timer))) = []
  /\ timers (env (constructor debug rnd (page false first_timer))) = [].
Proof.
  split; [| done].
  assert (H0 : inert (constructor debug rnd (page false first_timer))) by by split.
  revert H0. generalize (constructor debug rnd (page false first_timer)).
  induction ops as [|op ops IH]; intros s Hs; [done |].
  simpl. by apply IH, step_inert.
Qed.

(** X6 -- without [window], a tick that selects an event throws: the event
    has left the queue, a TypeError leaves the callback, and nothing is
    signalled or stored. *)
Theorem delivery_without_window s e :
  window (env s) = false ->
  _sendQueue (this s) ≠ [] ->
  (next_event s).1 = Some e ->
  uncaught (env (tick s)) = uncaught (env s) ++ ["TypeError"]
  /\ iframe_src (env (tick s)) = iframe_src (env s)
  /\ exposed_storage (env (tick s)) = exposed_storage (env s)
  /\ length (_sendQueue (this (tick s))) < length (_sendQueue (this s)).
Proof.
  intros Hw Hq. rewrite tick_nonempty by done.
  destruct s as [[q dbg reg sent st rh iv] [win ts seq src lis dsp exp con unc]].
  simpl in *. subst win.
  unfold next_event, notify_native, lodash_remove; simpl.
  destruct reg; simpl.
  - destruct q as [|e0 q]; [done |].
    destruct rh; simpl; intros [= ->]; destruct dbg; simpl; split_and!; auto.
  - destruct sent; simpl; [done |]. intros He. rewrite He.
    destruct dbg; simpl; split_and!; auto;
      apply head_Some_elem_of, list_elem_of_filter in He as [Hreg Hin];
      apply (length_filter_lt _ _ e); auto.
Qed.


Lemma registration_locator_of e : is_registration e -> registration_locator (locator e).
Proof. intros He. exists (QueuedEvent.id e). unfold locator. by rewrite He. Qed.

Lemma tick_gated s : consistent s -> gated s -> gated (tick s).
Proof.
  intros Hc.
  pose proof (nothing_signalled_before_registration s Hc) as Hnone.
  destruct s as [[q dbg reg sent st rh iv] [win ts seq src lis dsp exp con unc]].
  unfold gated, tick; simpl in *. destruct q as [|e q].
  { by destruct iv. }
  unfold next_event, notify_native, lodash_remove; simpl.
  destruct reg; simpl.
  { intros _. left. by destruct rh, dbg, win. }
  destruct sent; simpl.
  { intros [? | [-> | H]]; [done | by right; left | by right; right]. }
  intros _. rewrite (Hnone eq_refl eq_refl).
  destruct (head (filter is_registration (e :: q))) as [r|] eqn:Hr; simpl.
  - apply head_Some_elem_of, list_elem_of_filter in Hr as [Hreg _].
    destruct dbg, win; simpl; try (by right; left);
      right; right; (split; [done |]); exists (locator r);
      (split; [by apply registration_locator_of | done]).
  - by right; left.
Qed.

Lemma step_gated s op : consistent s -> gated s -> gated (step s op).
Proof.
  intros Hc Hg. destruct op as [name data rnd|handle|name data|id]; simpl.
  - unfold gated, send, _utilizeQueue in *; simpl. by destruct (_interval (this s)).
  - case_bool_decide; [by apply tick_gated | done].
  - destruct (window (env s)); [| done].
    destruct s as [[q dbg reg sent st rh iv] [win ts seq src lis dsp exp con unc]].
    unfold gated in *; simpl in *.
    unfold mobileBridge_send, dispatchEvent, registerHandler, _createEvent; simpl.
    repeat (case_match; simplify_eq/=); auto.
  - by destruct (window (env s)).
Qed.

Lemma reachable_gated s : reachable s -> gated s.
Proof.
  induction 1 as [debug rnd has_window first_timer | s op Hr IH].
  - right; left. by destruct has_window.
  - apply step_gated; [by apply reachable_consistent | done].
Qed.

(** X7 -- gating: as long as a reachable bridge is not registered, at most one
    locator has been signalled, it is the locator of a registration-named
    event, and none at all while the flag [_isBridgeRegistrationSent] is
    unset. *)
Theorem nothing_ordinary_before_registration s :
  reachable s ->
  _isBridgeRegistered (this s) = false ->
  length (iframe_src (env s)) <= 1
  /\ Forall registration_locator (iframe_src (env s))
  /\ (_isBridgeRegistrationSent (this s) = false -> iframe_src (env s) = []).
Proof.
  intros Hr Hreg. pose proof (reachable_consistent s Hr) as Hc.
  split_and!; [| | by apply (nothing_signalled_before_registration s Hc)];
    destruct (reachable_gated s Hr) as [? | [-> | (_ & addr & Haddr & ->)]];
    simpl; try congruence; auto; lia.
Qed.

Lemma tick_waiting s :
  _isBridgeRegistered (this s) = false ->
  _isBridgeRegistrationSent (this s) = true ->
  _sendQueue (this s) ≠ [] ->
  tick s = s.
Proof.
  intros Hreg Hsent Hq. rewrite tick_nonempty by done.
  unfold next_event. by rewrite Hreg, Hsent.
Qed.

Lemma mobileBridge_send_other name data s :
  name ≠ REGISTRATION_EVENT_NAME ->
  this (mobileBridge_send name data s) = this s
  /\ dispatched (env (mobileBridge_send name data s))
     = dispatched (env s) ++ [(_createEvent BRIDGE_SEND_EVENT name data (env s)).1]
  /\ iframe_src (env (mobileBridge_send name data s)) = iframe_src (env s)
  /\ exposed_storage (env (mobileBridge_send name data s)) = exposed_storage (env s)
  /\ timers (env (mobileBridge_send name data s)) = timers (env s)
  /\ iframe_listener (env (mobileBridge_send name data s)) = iframe_listener (env s).
Proof.
  intros Hname.
  destruct s as [[q dbg reg sent st rh iv] [win ts seq src lis dsp exp con unc]].
  unfold mobileBridge_send, _createEvent; simpl.
  destruct data as [text|];
    [destruct (negb _); [destruct (JSON_parse text) |] |]; simpl;
    unfold dispatchEvent, registerHandler; simpl;
    rewrite (bool_decide_eq_false_2 _ Hname); by destruct dbg, lis.
Qed.

Lemma step_waiting s op :
  _isBridgeRegistered (this s) = false ->
  _isBridgeRegistrationSent (this s) = true ->
  keeps_waiting op ->
  _isBridgeRegistered (this (step s op)) = false
  /\ _isBridgeRegistrationSent (this (step s op)) = true
  /\ _sendQueue (this (step s op)) = _sendQueue (this s) ++ sent_by op
  /\ iframe_src (env (step s op)) = iframe_src (env s).
Proof.
  intros Hreg Hsent Hop.
  destruct op as [name data rnd|handle|name data|id]; simpl in *.
  - unfold send, _utilizeQueue; simpl. by destruct (_interval (this s)).
  - rewrite app_nil_r. case_bool_decide; [| done].
    destruct (_sendQueue (this s)) as [|e q] eqn:Hq.
    + unfold tick. rewrite Hq. simpl. by destruct (_interval (this s)).
    + rewrite tick_waiting; [done.. |]. by rewrite Hq.
  - rewrite app_nil_r. destruct (window (env s)); [| done].
    destruct (mobileBridge_send_other name data s Hop) as (-> & _ & -> & _).
    done.
  - rewrite app_nil_r. by destruct (window (env s)).
Qed.

(** X8 -- waiting for the host: with the registration flagged as sent and the
    bridge not registered, a tick on a non-empty queue changes nothing, and
    over any run without a registration reply the queue grows by the events
    sent, in order, and nothing is signalled. *)
Theorem waiting_events_accumulate s ops :
  _isBridgeRegistered (this s) = false ->
  _isBridgeRegistrationSent (this s) = true ->
  Forall keeps_waiting ops ->
  (_sendQueue (this s) ≠ [] -> tick s = s)
  /\ _sendQueue (this (run ops s)) = _sendQueue (this s) ++ sent_in ops
  /\ iframe_src (env (run ops s)) = iframe_src (env s)
  /\ _isBridgeRegistered (this (run ops s)) = false.
Proof.
  intros Hreg Hsent Hops. split; [by apply tick_waiting |].
  revert s Hreg Hsent. induction Hops as [|op ops Hop _ IH]; intros s Hreg Hsent.
  { unfold sent_in. simpl. by rewrite app_nil_r. }
  destruct (step_waiting s op Hreg Hsent Hop) as (Hreg' & Hsent' & Hq & Hsrc).
  destruct (IH (step s op) Hreg' Hsent') as (Hq' & Hsrc' & Hreg'').
  simpl. unfold sent_in; simpl; fold (sent_in ops).
  by rewrite Hq', Hq, Hsrc', Hsrc, app_assoc.
Qed.

Lemma step_loop_running s op :
  (_sendQueue (this s) ≠ [] -> is_Some (_interval (this s))) ->
  _sendQueue (this (step s op)) ≠ [] -> is_Some (_interval (this (step s op))).
Proof.
  destruct s as [[q dbg reg sent st rh iv] [win ts seq src lis dsp exp con unc]].
  simpl. intros Hrun.
  destruct op as [name data rnd|handle|name data|id]; simpl.
  - unfold send, _utilizeQueue; simpl. intros _. by destruct iv.
  - case_bool_decide; [| done]. unfold tick; simpl.
    destruct q as [|e q]; [done |]. intros _.
    assert (is_Some iv) as [h ->] by by apply Hrun.
    unfold next_event, notify_native, lodash_remove; simpl.
    repeat (case_match; simplify_eq/=); done.
  - destruct win; [| done].
    unfold mobileBridge_send, dispatchEvent, registerHandler, _createEvent; simpl.
    repeat (case_match; simplify_eq/=); done.
  - by destruct win.
Qed.

(** X9 -- no event waits without a drain loop: in every reachable state with a
    non-empty queue, [_interval] holds a handle and that timer is the one
    active. *)
Theorem drain_loop_runs_while_events_wait s :
  reachable s ->
  _sendQueue (this s) ≠ [] ->
  exists handle, _interval (this s) = Some handle /\ timers (env s) = [handle].
Proof.
  intros Hr Hq.
  assert (Hrun : _sendQueue (this s) ≠ [] -> is_Some (_interval (this s))).
  { clear Hq. induction Hr as [debug rnd has_window first_timer | s op Hr IH].
    - by destruct has_window.
    - by apply step_loop_running. }
  destruct (Hrun Hq) as [handle Hh]. exists handle. split; [done |].
  by rewrite (timers_held s (reachable_consistent s Hr)), Hh.
Qed.


Lemma spread_object target props :
  spread target (VObj props) = list_to_map (reverse props) ∪ target.
Proof.
  unfold spread; simpl. revert target.
  induction props as [|[k v] props IH]; intros target; simpl.
  - by rewrite (left_id_L ∅ (∪)).
  - rewrite IH, reverse_cons, list_to_map_app; simpl.
    rewrite <- (assoc_L (∪)). f_equal.
    by rewrite insert_empty, <- insert_union_singleton_l.
Qed.

(** X10 -- the registration reply is merged into [storage]: for a reply that
    parses to an object, the keys of the reply take its values (the last
    one of a repeated key) and every other key keeps its value; a reply
    without data leaves [storage] as it is. *)
Theorem registration_reply_merges_storage s text props :
  iframe_listener (env s) = true ->
  text ≠ "" ->
  JSON_parse text = Some (VObj props) ->
  storage (this (mobileBridge_send REGISTRATION_EVENT_NAME (Some text) s))
  = list_to_map (reverse props) ∪ storage (this s)
  /\ (forall k, k ∉ props.*1 ->
        storage (this (mobileBridge_send REGISTRATION_EVENT_NAME (Some text) s)) !! k
        = storage (this s) !! k)
  /\ (forall k v, NoDup props.*1 -> (k, v) ∈ props ->
        storage (this (mobileBridge_send REGISTRATION_EVENT_NAME (Some text) s)) !! k
        = Some v)
  /\ storage (this (mobileBridge_send REGISTRATION_EVENT_NAME None s))
     = storage (this s).
Proof.
  intros Hl Htext Hparse.
  assert (Htruthy : truthy (VStr text) = true).
  { simpl. by destruct (String.eqb_spec text ""). }
  assert (Hmerge :
    storage (this (mobileBridge_send REGISTRATION_EVENT_NAME (Some text) s))
    = list_to_map (reverse props) ∪ storage (this s)).
  { destruct s as [[q dbg reg sent st rh iv] [win ts seq src lis dsp exp con unc]].
    simpl in Hl. subst lis.
    unfold storage, mobileBridge_send, _createEvent. rewrite Htruthy, Hparse. simpl.
    unfold dispatchEvent, registerHandler; simpl.
    destruct dbg; simpl; rewrite spread_object;
      by destruct (_createEvent _ _ _ _). }
  split_and!.
  - done.
  - intros k Hk. rewrite Hmerge. apply lookup_union_r.
    apply not_elem_of_list_to_map_1. by rewrite fmap_reverse, elem_of_reverse.
  - intros k v Hnd Hin. rewrite Hmerge. apply lookup_union_Some_l.
    apply elem_of_list_to_map_1; [| by apply elem_of_reverse].
    by rewrite fmap_reverse, reverse_Permutation.
  - destruct s as [[q dbg reg sent st rh iv] [win ts seq src lis dsp exp con unc]].
    simpl in Hl. subst lis.
    unfold storage, mobileBridge_send, _createEvent, dispatchEvent, registerHandler;
      simpl.
    destruct dbg; simpl; by destruct (_createEvent _ _ _ _).
Qed.

Lemma step_quiet s op :
  _debug (this s) = false ->
  _debug (this (step s op)) = false
  /\ forall entry, entry ∈ console (env (step s op)) ->
       entry ∈ console (env s) \/ entry = console_error "Can't parse json data".
Proof.
  destruct s as [[q dbg reg sent st rh iv] [win ts seq src lis dsp exp con unc]].
  simpl. intros ->.
  destruct op as [name data rnd|handle|name data|id]; simpl;
    unfold_bridge; simpl; repeat (case_match; simplify_eq/=); split; auto;
    intros entry Hin; simpl in Hin;
    repeat (apply elem_of_app in Hin as [Hin | Hin]; [| apply list_elem_of_singleton in Hin]);
    auto.
Qed.

(** X11 -- without [debug] nothing is traced: over any run the console gains
    only the fixed message of a failed parse. *)
Theorem no_trace_without_debug s ops :
  _debug (this s) = false ->
  forall entry, entry ∈ console (env (run ops s)) ->
    entry ∈ console (env s) \/ entry = console_error "Can't parse json data".
Proof.
  revert s. induction ops as [|op ops IH]; intros s Hd entry Hin; [by left |].
  destruct (step_quiet s op Hd) as [Hd' Hstep].
  destruct (IH (step s op) Hd' entry Hin) as [Hold | ->]; [| by right].
  by apply Hstep.
Qed.

(** X12 -- the [bridgeRegister] notification carries the data of the reply:
    when that data survives [JSON.stringify] then [JSON.parse], a
    registration reply received by the attached handler dispatches the
    [bridgeSend] event and then a [bridgeRegister] event with the same name
    and data. *)
Theorem bridgeRegister_carries_payload s data :
  iframe_listener (env s) = true ->
  round_trips
    (CustomEvent.detail_data
       (_createEvent BRIDGE_SEND_EVENT REGISTRATION_EVENT_NAME data (env s)).1) ->
  dispatched (env (mobileBridge_send REGISTRATION_EVENT_NAME data s))
  = dispatched (env s)
    ++ [(_createEvent BRIDGE_SEND_EVENT REGISTRATION_EVENT_NAME data (env s)).1;
        CustomEvent.make BRIDGE_REGISTER_EVENT REGISTRATION_EVENT_NAME
          (CustomEvent.detail_data
             (_createEvent BRIDGE_SEND_EVENT REGISTRATION_EVENT_NAME data (env s)).1)].
Proof.
  destruct s as [[q dbg reg sent st rh iv] [win ts seq src lis dsp exp con unc]].
  simpl. intros ->. unfold round_trips, mobileBridge_send.
  destruct (_createEvent BRIDGE_SEND_EVENT _ data _) as [evt w] eqn:Hevt.
  assert (Hshape : CustomEvent.type evt = BRIDGE_SEND_EVENT
                   /\ CustomEvent.detail_name evt = REGISTRATION_EVENT_NAME
                   /\ dispatched w = dsp /\ iframe_listener w = true).
  { unfold _createEvent in Hevt.
    repeat (case_match; simplify_eq/=); done. }
  destruct Hshape as (Hty & Hname & Hdsp & Hlis). simpl.
  intros Hrt. unfold dispatchEvent, registerHandler; simpl.
  rewrite Hty, Hname; simpl.
  assert (Hlis' : iframe_listener
            (if dbg then log_console
               (console_log ("Native invokes bridge with event '"
                             +:+ REGISTRATION_EVENT_NAME +:+ "'")
                  (CustomEvent.detail_data evt)) w else w) = true)
    by by destruct dbg.
  rewrite Hlis'. simpl.
  assert (Hdsp' : dispatched
            (if dbg then log_console
               (console_log ("Native invokes bridge with event '"
                             +:+ REGISTRATION_EVENT_NAME +:+ "'")
                  (CustomEvent.detail_data evt)) w else w) = dsp)
    by by destruct dbg.
  unfold _createEvent.
  destruct (JSON_stringify (CustomEvent.detail_data evt)) as [text|].
  - destruct Hrt as [Htext Hparse].
    assert (Htruthy : truthy (VStr text) = true).
    { simpl. by destruct (String.eqb_spec text ""). }
    rewrite Htruthy, Hparse. simpl. rewrite Hdsp'.
    by rewrite <- app_assoc.
  - simpl. rewrite Hdsp', Hrt. by rewrite <- app_assoc.
Qed.


(** X13 -- at most once, and only what was sent: over any run from the
    constructor, the events signalled together with those still queued are
    drawn, without repetition, from the constructor's queue and the events
    sent during the run; and every key of the exposed storage is the id of
    a signalled event. *)
Theorem signalled_at_most_once debug rnd has_window first_timer ops :
  exists ds,
    iframe_src (env (run ops (constructor debug rnd (page has_window first_timer))))
    = map locator ds
    /\ ds ++ _sendQueue
               (this (run ops (constructor debug rnd (page has_window first_timer))))
         ⊆+ _sendQueue (this (constructor debug rnd (page has_window first_timer)))
            ++ sent_in ops
    /\ (forall k,
          is_Some (exposed_storage
                     (env (run ops (constructor debug rnd (page has_window first_timer))))
                   !! k) ->
          k ∈ map QueuedEvent.id ds).
Proof.
  destruct (run_signals ops (constructor debug rnd (page has_window first_timer)))
    as (ds & Hsrc & Hsub & Hkeys).
  exists ds. split_and!; try done.
  - rewrite Hsrc. by destruct has_window.
  - intros k Hk. destruct (Hkeys k Hk) as [Hold |]; [| done].
    destruct has_window; simpl in Hold; rewrite lookup_empty in Hold;
      by destruct Hold.
Qed.

Lemma tick_window s : window (env (tick s)) = window (env s).
Proof.
  destruct s as [[q dbg reg sent st rh iv] [win ts seq src lis dsp exp con unc]].
  unfold_bridge; simpl; repeat (case_match; simplify_eq/=); done.
Qed.

Lemma tick_registration_leads rnd s :
  registration_leads rnd s -> registration_leads rnd (tick s).
Proof.
  intros [Hw Hlead]. split; [by rewrite tick_window |]. revert Hw Hlead.
  destruct s as [[q dbg reg sent st rh iv] [win ts seq src lis dsp exp con unc]].
  unfold tick; simpl. intros -> Hlead.
  destruct Hlead as [[-> [rest ->]] | [rest ->]].
  - unfold next_event, notify_native, lodash_remove; simpl.
    destruct reg; simpl; [destruct rh, dbg; right; by eexists |].
    destruct sent; simpl; [left; split; [done | by eexists] |].
    destruct dbg; right; by eexists.
  - right. destruct q as [|e q]; [destruct iv; by eexists |].
    unfold next_event, notify_native, lodash_remove; simpl.
    repeat (case_match; simplify_eq/=); by eexists.
Qed.

Lemma step_registration_leads rnd s op :
  registration_leads rnd s -> registration_leads rnd (step s op).
Proof.
  intros Hlead. destruct op as [name data rnd'|handle|name data|id]; simpl.
  - destruct Hlead as [Hw Hlead]. unfold registration_leads, send, _utilizeQueue; simpl.
    destruct (_interval (this s)); simpl; (split; [done |]);
      (destruct Hlead as [[Hsrc [rest Hq]] | Hsrc]; [left | by right]);
      (split; [done |]); rewrite Hq; by eexists.
  - case_bool_decide; [by apply tick_registration_leads | done].
  - destruct (window (env s)); [| done].
    destruct s as [[q dbg reg sent st rh iv] [win ts seq src lis dsp exp con unc]].
    unfold registration_leads in *; simpl in *.
    unfold mobileBridge_send, dispatchEvent, registerHandler, _createEvent; simpl.
    repeat (case_match; simplify_eq/=); done.
  - by destruct (window (env s)).
Qed.

(** X14 -- in a page the registration comes first: over any run from the
    constructor, either nothing is signalled yet and the constructor's
    registration event heads the queue, or its locator is the first one
    signalled. *)
Theorem first_signal_is_registration debug rnd first_timer ops :
  registration_leads rnd (run ops (constructor debug rnd (page true first_timer))).
Proof.
  assert (H0 : registration_leads rnd (constructor debug rnd (page true first_timer))).
  { split; [done |]. left. split; [done |]. by exists []. }
  revert H0. generalize (constructor debug rnd (page true first_timer)).
  induction ops as [|op ops IH]; intros s Hs; [done |].
  simpl. by apply IH, step_registration_leads.
Qed.


Lemma tick_keeps_loop s :
  _sendQueue (this s) ≠ [] ->
  _interval (this (tick s)) = _interval (this s).
Proof.
  destruct s as [[q dbg reg sent st rh iv] [win ts seq src lis dsp exp con unc]].
  simpl. intros Hq. unfold tick; simpl. destruct q as [|e q]; [done |].
  unfold next_event, notify_native, lodash_remove; simpl.
  repeat (case_match; simplify_eq/=); done.
Qed.

Lemma drain_queue q : forall s handle,
  consistent s ->
  _isBridgeRegistered (this s) = true ->
  _interval (this s) = Some handle ->
  _sendQueue (this s) = q ->
  _sendQueue (this (run (replicate (length q) (TimerFires handle)) s)) = []
  /\ iframe_src (env (run (replicate (length q) (TimerFires handle)) s))
     = iframe_src (env s) ++ map locator q
  /\ _interval (this (run (replicate (length q) (TimerFires handle)) s)) = Some handle
  /\ consistent (run (replicate (length q) (TimerFires handle)) s).
Proof.
  induction q as [|e q IH]; intros s handle Hc Hreg Hiv Hq; simpl.
  { by rewrite app_nil_r. }
  assert (Hin : handle ∈ timers (env s)).
  { rewrite (timers_held s Hc), Hiv. by constructor. }
  rewrite bool_decide_eq_true_2 by done.
  destruct (tick_registered s e q (registered_needs_window s Hc Hreg) Hreg Hq)
    as (Hq' & Hsrc & _).
  destruct (IH (tick s) handle) as (Hend & Hsrc' & Hiv' & Hc').
  - by apply tick_consistent.
  - pose proof (step_registered s (TimerFires handle) Hreg) as Hstep.
    simpl in Hstep. by rewrite bool_decide_eq_true_2 in Hstep.
  - rewrite tick_keeps_loop; [done |]. by rewrite Hq.
  - done.
  - split_and!; try done. by rewrite Hsrc', Hsrc, <- app_assoc.
Qed.

Lemma tick_stops s :
  consistent s ->
  _sendQueue (this s) = [] ->
  _interval (this (tick s)) = None /\ timers (env (tick s)) = [].
Proof.
  destruct s as [[q dbg reg sent st rh iv] [win ts seq src lis dsp exp con unc]].
  intros [Ht _ _ _ _ _]; simpl in *. intros ->. unfold tick; simpl.
  destruct iv as [h|]; simpl in *; subst ts; simpl; [| done].
  rewrite filter_cons. by destruct (decide (h ≠ h)).
Qed.

Lemma run_snoc ops op s : run (ops ++ [op]) s = step (run ops s) op.
Proof. unfold run. by rewrite foldl_app. Qed.

(** X16 -- draining: a registered bridge with [n] events queued signals them
    all, in order, in [n] ticks, and the tick after that clears the timer
    and forgets the handle. *)
Theorem queue_drains_then_loop_stops s handle :
  reachable s ->
  _isBridgeRegistered (this s) = true ->
  _interval (this s) = Some handle ->
  _sendQueue
    (this (run (replicate (length (_sendQueue (this s))) (TimerFires handle)) s)) = []
  /\ iframe_src
       (env (run (replicate (length (_sendQueue (this s))) (TimerFires handle)) s))
     = iframe_src (env s) ++ map locator (_sendQueue (this s))
  /\ _interval
       (this (run (replicate (S (length (_sendQueue (this s)))) (TimerFires handle)) s))
     = None
  /\ timers
       (env (run (replicate (S (length (_sendQueue (this s)))) (TimerFires handle)) s))
     = [].
Proof.
  intros Hr Hreg Hiv.
  destruct (drain_queue (_sendQueue (this s)) s handle
              (reachable_consistent s Hr) Hreg Hiv eq_refl) as (Hend & Hsrc & Hiv' & Hc).
  split; [done |]. split; [done |].
  rewrite replicate_S_end, run_snoc. simpl.
  rewrite bool_decide_eq_true_2.
  - by apply tick_stops.
  - rewrite (timers_held _ Hc), Hiv'. by constructor.
Qed.


Lemma step_flag_frozen s op :
  _isBridgeRegistered (this s) = true ->
  _isBridgeRegistrationSent (this (step s op)) = _isBridgeRegistrationSent (this s).
Proof.
  destruct s as [[q dbg reg sent st rh iv] [win ts seq src lis dsp exp con unc]].
  simpl. intros ->.
  destruct op as [name data rnd|handle|name data|id]; simpl;
    unfold_bridge; simpl; repeat (case_match; simplify_eq/=); done.
Qed.

(** X17 -- once the bridge is registered the flag [_isBridgeRegistrationSent]
    never changes: a reply that precedes the first tick leaves it unset for
    good. *)
Theorem registration_sent_frozen_once_registered s ops :
  _isBridgeRegistered (this s) = true ->
  _isBridgeRegistrationSent (this (run ops s)) = _isBridgeRegistrationSent (this s).
Proof.
  revert s. induction ops as [|op ops IH]; intros s Hreg; [done |].
  simpl. rewrite IH by by apply step_registered. by apply step_flag_frozen.
Qed.

End Further.

(** ** The further properties on concrete bridges *)

Section FurtherExamples.
#[local] Existing Instance plain_JSON.

Lemma draws_a_in_range : in_draw_range draws_a.
Proof. intros i _. unfold draws_a. lia. Qed.

Lemma generateId_shape_witness :
  in_draw_range draws_a /\ String.length (_generateId draws_a) = 36.
Proof.
  split; [exact draws_a_in_range |].
  destruct (generateId_shape draws_a draws_a_in_range)
    as (a & b & c & d & e & _ & _ & _ & _ & _ & _ & _ & _ & _ & _ & _ & Hlen).
  exact Hlen.
Defined.

Lemma wrapSchema_decodable_witness :
  (no_slash "ping" /\ _wrapSchema "ping" "1-2" = _wrapSchema "ping" "1-2")
  /\ "ping" = "ping" /\ "1-2" = "1-2".
Proof.
  assert (Hn : no_slash "ping") by by apply (bool_decide_unpack _).
  split; [by split |].
  exact (wrapSchema_decodable "ping" "1-2" "ping" "1-2" Hn Hn eq_refl).
Defined.

(** Without the condition on names the locator is ambiguous. *)
Example wrapSchema_slash_ambiguous :
  _wrapSchema "a/b" "c" = _wrapSchema "a" "b/c".
Proof. reflexivity. Qed.

Lemma addData_then_pullOut_witness :
  exposed_storage (page true 1) !! _generateId draws_a = None
  /\ pullOutDataById (_generateId draws_a)
       (_addData (_generateId draws_a) (VNum 1) (page true 1))
     = (GotString "1", page true 1).
Proof.
  split; [reflexivity |].
  exact (proj2 (addData_then_pullOut draws_a (VNum 1) (page true 1)) eq_refl).
Defined.

Lemma pullOutDataById_missing_witness :
  exposed_storage (page true 1) !! "toString" = None
  /\ pullOutDataById "toString" (page true 1) = (GotInherited "toString", page true 1).
Proof.
  split; [reflexivity |].
  exact (pullOutDataById_missing "toString" (page true 1) eq_refl).
Defined.

Lemma delivery_without_window_witness :
  (window (env inert_bridge_with_registration) = false
   /\ _sendQueue (this inert_bridge_with_registration) = [registration_b]
   /\ (next_event inert_bridge_with_registration).1 = Some registration_b)
  /\ uncaught (env (tick inert_bridge_with_registration)) = ["TypeError"]
  /\ iframe_src (env (tick inert_bridge_with_registration)) = []
  /\ _sendQueue (this (tick inert_bridge_with_registration)) = [].
Proof.
  split; [by split_and! |].
  assert (Hq : _sendQueue (this inert_bridge_with_registration) ≠ []) by discriminate.
  destruct (delivery_without_window inert_bridge_with_registration registration_b
              eq_refl Hq eq_refl) as (Hunc & Hsrc & _ & _).
  split; [exact Hunc |]. split; [exact Hsrc | reflexivity].
Defined.

Lemma nothing_ordinary_before_registration_witness :
  (reachable bridge_after_first_tick
   /\ _isBridgeRegistered (this bridge_after_first_tick) = false)
  /\ length (iframe_src (env bridge_after_first_tick)) <= 1
  /\ Forall registration_locator (iframe_src (env bridge_after_first_tick)).
Proof.
  split; [split; [exact bridge_after_first_tick_reachable | reflexivity] |].
  destruct (nothing_ordinary_before_registration bridge_after_first_tick
              bridge_after_first_tick_reachable eq_refl) as (Hlen & Hall & _).
  split; [exact Hlen | exact Hall].
Defined.

Lemma waiting_ops_keep_waiting : Forall keeps_waiting waiting_ops.
Proof. repeat constructor. discriminate. Qed.

Lemma waiting_events_accumulate_witness :
  (_isBridgeRegistered (this bridge_after_first_tick) = false
   /\ _isBridgeRegistrationSent (this bridge_after_first_tick) = true
   /\ Forall keeps_waiting waiting_ops)
  /\ _sendQueue (this (run waiting_ops bridge_after_first_tick))
     = _sendQueue (this bridge_after_first_tick) ++ sent_in waiting_ops
  /\ iframe_src (env (run waiting_ops bridge_after_first_tick))
     = iframe_src (env bridge_after_first_tick).
Proof.
  split; [split_and!; [reflexivity | reflexivity | exact waiting_ops_keep_waiting] |].
  destruct (waiting_events_accumulate bridge_after_first_tick waiting_ops
              eq_refl eq_refl waiting_ops_keep_waiting) as (_ & Hq & Hsrc & _).
  split; [exact Hq | exact Hsrc].
Defined.

Lemma bridge_with_ping_reachable : reachable bridge_with_ping.
Proof.
  apply (reachable_step _ (CallSend "ping" (VNum 1) draws_b)), reachable_new.
Qed.

Lemma drain_loop_runs_while_events_wait_witness :
  (reachable bridge_with_ping /\ _sendQueue (this bridge_with_ping) ≠ [])
  /\ exists handle,
       _interval (this bridge_with_ping) = Some handle
       /\ timers (env bridge_with_ping) = [handle].
Proof.
  assert (Hq : _sendQueue (this bridge_with_ping) ≠ []) by discriminate.
  split; [split; [exact bridge_with_ping_reachable | exact Hq] |].
  exact (drain_loop_runs_while_events_wait bridge_with_ping
           bridge_with_ping_reachable Hq).
Defined.

Lemma registration_reply_merges_storage_witness :
  (iframe_listener (env bridge_in_page) = true
   /\ JSON_parse (JSON := token_JSON) token_text = Some token_value)
  /\ storage (this (mobileBridge_send (J := token_JSON) REGISTRATION_EVENT_NAME
                      (Some token_text) bridge_in_page))
     = {[ "token" := VStr "abc" ]}.
Proof.
  assert (Htext : token_text ≠ "") by discriminate.
  assert (Hparse : JSON_parse (JSON := token_JSON) token_text = Some token_value)
    by reflexivity.
  split; [split; [reflexivity | exact Hparse] |].
  destruct (registration_reply_merges_storage (J := token_JSON) bridge_in_page
              token_text [("token", VStr "abc")] eq_refl Htext Hparse) as (Hmerge & _).
  rewrite Hmerge. reflexivity.
Defined.

Lemma no_trace_without_debug_witness :
  _debug (this bridge_in_page) = false
  /\ forall entry,
       entry ∈ console (env (run [TimerFires 1; HostSend "ping" (Some "{")] bridge_in_page)) ->
       entry ∈ console (env bridge_in_page)
       \/ entry = console_error "Can't parse json data".
Proof.
  split; [reflexivity |].
  exact (no_trace_without_debug bridge_in_page
           [TimerFires 1; HostSend "ping" (Some "{")] eq_refl).
Defined.

Lemma bridgeRegister_carries_payload_witness :
  (iframe_listener (env bridge_in_page) = true /\ round_trips (VNum 7))
  /\ dispatched (env (mobileBridge_send REGISTRATION_EVENT_NAME (Some "7") bridge_in_page))
     = [CustomEvent.make BRIDGE_SEND_EVENT REGISTRATION_EVENT_NAME (VNum 7);
        CustomEvent.make BRIDGE_REGISTER_EVENT REGISTRATION_EVENT_NAME (VNum 7)].
Proof.
  assert (Hrt : round_trips (VNum 7)) by (split; [discriminate | reflexivity]).
  split; [split; [reflexivity | exact Hrt] |].
  exact (bridgeRegister_carries_payload bridge_in_page (Some "7") eq_refl Hrt).
Defined.


Lemma registered_bridge_with_two_reachable : reachable registered_bridge_with_two.
Proof. do 2 apply run_reachable. apply reachable_new. Qed.

Lemma queue_drains_then_loop_stops_witness :
  (reachable registered_bridge_with_two
   /\ _isBridgeRegistered (this registered_bridge_with_two) = true
   /\ _interval (this registered_bridge_with_two) = Some 1%positive
   /\ length (_sendQueue (this registered_bridge_with_two)) = 2)
  /\ _sendQueue (this (run (replicate 2 (TimerFires 1)) registered_bridge_with_two)) = []
  /\ timers (env (run (replicate 3 (TimerFires 1)) registered_bridge_with_two)) = [].
Proof.
  split; [split_and!; [exact registered_bridge_with_two_reachable | reflexivity..] |].
  destruct (queue_drains_then_loop_stops registered_bridge_with_two 1%positive
              registered_bridge_with_two_reachable eq_refl eq_refl)
    as (Hend & _ & _ & Hstop).
  split; [exact Hend | exact Hstop].
Defined.

Lemma registration_sent_frozen_once_registered_witness :
  (_isBridgeRegistered (this registered_before_first_tick) = true
   /\ _isBridgeRegistrationSent (this registered_before_first_tick) = false)
  /\ _isBridgeRegistrationSent (this (run two_sends registered_before_first_tick))
     = false.
Proof.
  split; [by split |].
  exact (registration_sent_frozen_once_registered registered_before_first_tick
           two_sends eq_refl).
Defined.

End FurtherExamples.
